(** * Event-study statistics of stock-analysis-app.cpp

    A shallow embedding of the analysis core of [src/stock-analysis-app.cpp]:
    the [Stock] and [Group] classes, [parsePrices], [MarketData],
    [StockAnalyzer::retrieveHistoricalData], [calculateGroupMetrics],
    [performBootstrapping] and the tables the two exports write.

    - A C++ [double] is a primitive binary64 float ([PrimFloat.float]); its
      operations are the IEEE-754 ones, specified by [FloatAxioms].
    - A [std::vector<T>] is a [list T]; [size()] is [length].
    - An [int] is a [Z] in [[INT_MIN, INT_MAX]]; a [size_t] is a [Z] in
      [[0, SIZE_MAX]] (LP64).  Conversions between the two are written out.
    - A [Stock*] is an address; the stocks it points to live in a [heap].
    - A C++ exception is the [Throws] outcome of the monad [M], which also
      threads the number of [std::random_device] objects built so far.  The
      only exception of these functions is the [std::length_error] a
      [std::vector] throws when asked for more than [max_size()] elements.
    - Console output is left out.  [performBootstrapping] returns the three
      averaged vectors; the text of the CSV files is a function of the
      vectors written ([Report]).
    - The network ([fetchData]), [std::stod], the printing of a [double]
      and [std::shuffle] are parameters of the sections that use them. *)

From Stdlib Require Import String Ascii DecimalString Bool ZArith List Permutation.
From Stdlib Require Import Floats Lia.
Import ListNotations.
Set Warnings "-inexact-float".

Local Open Scope Z_scope.
Local Open Scope list_scope.

(** ** Machine integers *)

Definition INT_MIN : Z := - 2 ^ 31.
Definition INT_MAX : Z := 2 ^ 31 - 1.
Definition SIZE_MAX : Z := 2 ^ 64 - 1.

(** The values of type [int]. *)
Definition is_int (z : Z) : Prop := INT_MIN <= z <= INT_MAX.

(** Conversion of an integer value to [size_t]: reduction modulo 2^64. *)
Definition to_size_t (z : Z) : Z := z mod 2 ^ 64.

(** Conversion of an unsigned value to [int] (narrowing, modulo 2^32). *)
Definition to_int (z : Z) : Z := (z + 2 ^ 31) mod 2 ^ 32 - 2 ^ 31.

(** [std::vector<T>::max_size()] for an element of [elem] bytes:
    PTRDIFF_MAX / sizeof(T). *)
Definition max_size (elem : Z) : Z := (2 ^ 63 - 1) / elem.

Definition sizeof_double : Z := 8.
Definition sizeof_pointer : Z := 8.
Definition sizeof_vector : Z := 24.

(** Conversion of a non-negative integer below 2^63 to [double]. *)
Definition size_to_double (n : Z) : float := PrimFloat.of_uint63 (Uint63.of_Z n).

(** Conversion of an [int] to [double] (exact: 32 bits fit the mantissa). *)
Definition int_to_double (z : Z) : float :=
  if z <? 0 then PrimFloat.opp (PrimFloat.of_uint63 (Uint63.of_Z (- z)))
  else PrimFloat.of_uint63 (Uint63.of_Z z).

(** ** Arithmetic of the classifier

    [Stock::getSurprisePercentage] and [Stock::getGroup] use subtraction,
    division, multiplication, [std::abs], comparisons and three literals,
    all on [double]. *)

Class Arith (R : Type) : Type := {
  a_sub : R -> R -> R;
  a_mul : R -> R -> R;
  a_div : R -> R -> R;
  a_abs : R -> R;
  a_eqb : R -> R -> bool;
  a_ltb : R -> R -> bool;
  a_lit : Z -> R            (* the literal of that integer value *)
}.

#[export] Instance binary64 : Arith float := {
  a_sub := PrimFloat.sub;
  a_mul := PrimFloat.mul;
  a_div := PrimFloat.div;
  a_abs := PrimFloat.abs;
  a_eqb := PrimFloat.eqb;
  a_ltb := PrimFloat.ltb;
  a_lit := int_to_double
}.

Inductive Label : Type := Beat | Meet | Miss.

Definition label_name (l : Label) : string :=
  match l with
  | Beat => "Beat"
  | Meet => "Meet"
  | Miss => "Miss"
  end.

Section Classifier.
Context {R : Type} `{Arith R}.

(** [getSurprisePercentage], on the two EPS fields. *)
Definition surprisePercentage (epsEstimate actualEPS : R) : R :=
  if negb (a_eqb epsEstimate (a_lit 0)) then
    a_mul (a_div (a_sub actualEPS epsEstimate) (a_abs epsEstimate)) (a_lit 100)
  else a_lit 0.

(** [getGroup], on the two EPS fields. *)
Definition classify (epsEstimate actualEPS : R) : Label :=
  let surprise := surprisePercentage epsEstimate actualEPS in
  if a_ltb (a_lit 5) surprise then Beat
  else if a_ltb surprise (a_lit (-5)) then Miss
  else Meet.
End Classifier.

(** ** Scaling by a power of two *)





(** ** class Stock *)

Module Stock.

Record t : Type := mk {
  symbol : string;
  epsEstimate : float;
  actualEPS : float;
  earningsDate : string;
  prices : list float;
  returns : list float;
  abnormalReturns : list float
}.

(** The constructor: the three vectors start empty. *)
Definition new (sym : string) (eps actual : float) (date : string) : t :=
  mk sym eps actual date [] [] [].

Definition addPrice (s : t) (price : float) : t :=
  mk (symbol s) (epsEstimate s) (actualEPS s) (earningsDate s)
     (prices s ++ [price]) (returns s) (abnormalReturns s).

(** The loop of [calculateReturns]: [prev] is [prices[i-1]], the list holds
    [prices[i]], [prices[i+1]], ... *)
Fixpoint returns_from (prev : float) (rest : list float) : list float :=
  match rest with
  | [] => []
  | p :: rest' => ((p - prev) / prev)%float :: returns_from p rest'
  end.

Definition daily_returns (ps : list float) : list float :=
  match ps with
  | [] => []
  | p0 :: rest => returns_from p0 rest
  end.

Definition calculateReturns (s : t) : t :=
  mk (symbol s) (epsEstimate s) (actualEPS s) (earningsDate s)
     (prices s) (daily_returns (prices s)) (abnormalReturns s).

(** The loop of [calculateAbnormalReturns]: it runs while both vectors
    still have an element at the index. *)
Fixpoint abnormal_loop (rs ms : list float) : list float :=
  match rs, ms with
  | r :: rs', m :: ms' => (r - m)%float :: abnormal_loop rs' ms'
  | _, _ => []
  end.

Definition calculateAbnormalReturns (s : t) (marketReturns : list float) : t :=
  mk (symbol s) (epsEstimate s) (actualEPS s) (earningsDate s)
     (prices s) (returns s) (abnormal_loop (returns s) marketReturns).

Definition getSurprisePercentage (s : t) : float :=
  surprisePercentage (epsEstimate s) (actualEPS s).

Definition getGroup (s : t) : string :=
  label_name (classify (epsEstimate s) (actualEPS s)).

End Stock.

(** ** Memory, exceptions and the random device *)

(** A [Stock*]: the address of a [Stock] held by [StockAnalyzer::stocksMap]. *)
Definition StockPtr : Type := N.

(** What the addresses hold.  Several groups, and several entries of one
    group, may hold the same address. *)
Definition heap : Type := StockPtr -> Stock.t.

Inductive exn : Type :=
| length_error.       (* std::length_error, thrown by std::vector *)

Inductive outcome (A : Type) : Type :=
| Returns (a : A)
| Throws (e : exn).
Arguments Returns {A} a.
Arguments Throws {A} e.

(** A computation that may throw and may build [std::random_device]
    objects: it maps the number of devices built so far to its outcome and
    the new count. *)
Definition M (A : Type) : Type := nat -> outcome (A * nat).

Definition ret {A : Type} (a : A) : M A := fun k => Returns (a, k).

Definition bind {A B : Type} (m : M A) (f : A -> M B) : M B :=
  fun k =>
    match m k with
    | Returns (a, k') => f a k'
    | Throws e => Throws e
    end.

Definition lift {A : Type} (o : outcome A) : M A :=
  fun k =>
    match o with
    | Returns a => Returns (a, k)
    | Throws e => Throws e
    end.

Declare Scope cxx_scope.
Delimit Scope cxx_scope with cxx.
Notation "x <- m ;; f" := (bind m (fun x => f))
  (at level 61, m at next level, right associativity) : cxx_scope.
Notation "' p <- m ;; f" := (bind m (fun p => f))
  (at level 61, p pattern, m at next level, right associativity) : cxx_scope.

(** ** std::vector operations *)

(** [v.resize(n, x)]: keeps the first [n] elements and pads with [x]; the
    elements already there are not reset. *)
Definition resize {A : Type} (n : nat) (x : A) (v : list A) : list A :=
  firstn n v ++ repeat x (n - length v).

(** [v.resize(n, x)] with the length check of [std::vector]: [n] is the
    [size_t] argument, [elem] the size of an element. *)
Definition checked_resize {A : Type} (elem n : Z) (x : A) (v : list A)
  : outcome (list A) :=
  if max_size elem <? n then Throws length_error
  else Returns (resize (Z.to_nat n) x v).

(** [v[i] = x] for [i < v.size()]. *)
Fixpoint assign {A : Type} (i : nat) (x : A) (v : list A) : list A :=
  match v, i with
  | [], _ => []
  | _ :: v', O => x :: v'
  | y :: v', S i' => y :: assign i' x v'
  end.

(** [for (day = 0; day < n && day < src.size(); day++) acc[day] += src[day]]
    on an accumulator of at least [n] elements. *)
Fixpoint add_days (n : nat) (acc src : list float) : list float :=
  match n, acc, src with
  | S n', a :: acc', x :: src' => (a + x)%float :: add_days n' acc' src'
  | _, _, _ => acc
  end.

(** [for (day = 0; day < n; day++) v[day] /= d] on a vector of at least [n]
    elements. *)
Fixpoint div_days (n : nat) (d : float) (v : list float) : list float :=
  match n, v with
  | S n', x :: v' => (x / d)%float :: div_days n' d v'
  | _, _ => v
  end.

(** ** class Group *)

Module Group.

Record t : Type := mk {
  name : string;
  stocks : list StockPtr;
  aar : list float;
  caar : list float
}.

Definition new (groupName : string) : t := mk groupName [] [] [].

Definition addStock (g : t) (stock : StockPtr) : t :=
  mk (name g) (stocks g ++ [stock]) (aar g) (caar g).

Definition set_aar (g : t) (v : list float) : t :=
  mk (name g) (stocks g) v (caar g).

Definition set_caar (g : t) (v : list float) : t :=
  mk (name g) (stocks g) (aar g) v.

(** The summation loop of [calculateAAR] over the members. *)
Definition sum_members (h : heap) (daysCount : nat) (members : list StockPtr)
    (acc : list float) : list float :=
  fold_left
    (fun acc stock => add_days daysCount acc (Stock.abnormalReturns (h stock)))
    members acc.

Definition calculateAAR (h : heap) (g : t) : outcome t :=
  match stocks g with
  | [] => Returns g
  | first :: _ =>
      (* int daysCount = stocks[0]->abnormalReturns.size(); *)
      let daysCount :=
        to_int (Z.of_nat (length (Stock.abnormalReturns (h first)))) in
      (* aar.resize(daysCount, 0.0); *)
      match checked_resize sizeof_double (to_size_t daysCount) 0%float (aar g) with
      | Throws e => Throws e
      | Returns aar0 =>
          let n := Z.to_nat (to_size_t daysCount) in
          let aar1 := sum_members h n (stocks g) aar0 in
          let aar2 :=
            div_days n (size_to_double (Z.of_nat (length (stocks g)))) aar1 in
          Returns (set_aar g aar2)
      end
  end.

(** The loop of [calculateCAAR]: [cumulative] is the running sum. *)
Fixpoint running_sum (cumulative : float) (v : list float) : list float :=
  match v with
  | [] => []
  | dailyAAR :: v' =>
      let cumulative := (cumulative + dailyAAR)%float in
      cumulative :: running_sum cumulative v'
  end.

Definition calculateCAAR (g : t) : t :=
  set_caar g (running_sum 0%float (aar g)).

Section Sampling.
(** The value the [k]-th [std::random_device] of the run delivers. *)
Variable rd : nat -> N.
(** [std::shuffle] driven by a [std::mt19937] seeded with that value. *)
Variable shuffle : N -> list StockPtr -> list StockPtr.

Definition random_device : M N := fun k => Returns (rd k, S k).

Definition sampleStocks (g : t) (sampleSize : Z) : M (list StockPtr) :=
  (* stocks.size() <= sampleSize compares in size_t *)
  if Z.of_nat (length (stocks g)) <=? to_size_t sampleSize then
    ret (stocks g)
  else
    (seed <- random_device ;;
     let stocksCopy := shuffle seed (stocks g) in
     ret (firstn (Z.to_nat sampleSize) stocksCopy))%cxx.
End Sampling.

End Group.

(** ** class StockAnalyzer *)

Module StockAnalyzer.

Record t : Type := mk {
  stocksMap : heap;
  beatGroup : Group.t;
  meetGroup : Group.t;
  missGroup : Group.t
}.

Definition calculateGroupMetrics (a : t) : outcome t :=
  match Group.calculateAAR (stocksMap a) (beatGroup a) with
  | Throws e => Throws e
  | Returns b =>
      let b := Group.calculateCAAR b in
      match Group.calculateAAR (stocksMap a) (meetGroup a) with
      | Throws e => Throws e
      | Returns m =>
          let m := Group.calculateCAAR m in
          match Group.calculateAAR (stocksMap a) (missGroup a) with
          | Throws e => Throws e
          | Returns s => Returns (mk (stocksMap a) b m (Group.calculateCAAR s))
          end
      end
  end.

(** The three averaged CAAR vectors [performBootstrapping] exports. *)
Definition curves : Type := (list float * list float * list float)%type.

Section Bootstrapping.
Variable rd : nat -> N.
Variable shuffle : N -> list StockPtr -> list StockPtr.

(** A temporary group filled with a sample, one [addStock] per member. *)
Definition tempGroup (groupName : string) (sample : list StockPtr) : Group.t :=
  fold_left Group.addStock sample (Group.new groupName).

(** [calculateAAR] then [calculateCAAR] on a temporary group; the value is
    its [caar]. *)
Definition tempCAAR (h : heap) (g : Group.t) : M (list float) :=
  (g <- lift (Group.calculateAAR h g) ;;
   ret (Group.caar (Group.calculateCAAR g)))%cxx.

(** The body of the iteration loop: the CAAR vectors of the three
    temporary groups. *)
Definition iteration (a : t) (sampleSize : Z) : M curves :=
  (beatSample <- Group.sampleStocks rd shuffle (beatGroup a) sampleSize ;;
   meetSample <- Group.sampleStocks rd shuffle (meetGroup a) sampleSize ;;
   missSample <- Group.sampleStocks rd shuffle (missGroup a) sampleSize ;;
   let tempBeatGroup := tempGroup "TempBeat" beatSample in
   let tempMeetGroup := tempGroup "TempMeet" meetSample in
   let tempMissGroup := tempGroup "TempMiss" missSample in
   beatCAAR <- tempCAAR (stocksMap a) tempBeatGroup ;;
   meetCAAR <- tempCAAR (stocksMap a) tempMeetGroup ;;
   missCAAR <- tempCAAR (stocksMap a) tempMissGroup ;;
   ret (beatCAAR, meetCAAR, missCAAR))%cxx.

(** The iteration loop, [n] rounds left, at index [i]. *)
Fixpoint iterate (a : t) (sampleSize : Z) (n i : nat)
    (beatCAARs meetCAARs missCAARs : list (list float))
  : M (list (list float) * list (list float) * list (list float)) :=
  match n with
  | O => ret (beatCAARs, meetCAARs, missCAARs)
  | S n' =>
      ('(b, m, s) <- iteration a sampleSize ;;
       iterate a sampleSize n' (S i)
         (assign i b beatCAARs) (assign i m meetCAARs) (assign i s missCAARs))%cxx
  end.

(** [minSize = min(minSize, caar.size())] over the stored vectors,
    starting from [SIZE_MAX]. *)
Definition min_size (CAARs : list (list float)) : Z :=
  fold_left (fun minSize caar => Z.min minSize (Z.of_nat (length caar)))
    CAARs SIZE_MAX.

(** [avg[day] += CAARs[i][day]] for every [i] and every [day < minSize]. *)
Definition sum_across (minSize : nat) (CAARs : list (list float))
    (avg : list float) : list float :=
  fold_left (fun avg caar => add_days minSize avg caar) CAARs avg.

(** The average of one group's vectors, once the sizes are known. *)
Definition average (iterations : Z) (minSize : Z) (CAARs : list (list float))
    (avg0 : list float) : list float :=
  div_days (Z.to_nat minSize) (int_to_double iterations)
    (sum_across (Z.to_nat minSize) CAARs avg0).

Definition performBootstrapping (a : t) (sampleSize iterations : Z) : M curves :=
  (* std::vector<std::vector<double>> beatCAARs(iterations), ... *)
  (beatCAARs <- lift (checked_resize sizeof_vector (to_size_t iterations) [] []) ;;
   meetCAARs <- lift (checked_resize sizeof_vector (to_size_t iterations) [] []) ;;
   missCAARs <- lift (checked_resize sizeof_vector (to_size_t iterations) [] []) ;;
   '(beatCAARs, meetCAARs, missCAARs) <-
      iterate a sampleSize (Z.to_nat iterations) O beatCAARs meetCAARs missCAARs ;;
   let minBeatSize := min_size beatCAARs in
   let minMeetSize := min_size meetCAARs in
   let minMissSize := min_size missCAARs in
   avgBeatCAAR <- lift (checked_resize sizeof_double minBeatSize 0%float []) ;;
   avgMeetCAAR <- lift (checked_resize sizeof_double minMeetSize 0%float []) ;;
   avgMissCAAR <- lift (checked_resize sizeof_double minMissSize 0%float []) ;;
   ret (average iterations minBeatSize beatCAARs avgBeatCAAR,
        average iterations minMeetSize meetCAARs avgMeetCAAR,
        average iterations minMissSize missCAARs avgMissCAAR))%cxx.
End Bootstrapping.

End StockAnalyzer.

(** ** Sums the claims speak of *)

(** The sum of [v[0..d]], added from the left; the empty sum is 0.0. *)
Definition prefix_sum (v : list float) (d : nat) : float :=
  fold_left PrimFloat.add (firstn (S d) v) 0%float.

(** The abnormal return of a member on day [d], 0.0 past the end of its
    vector. *)
Definition contribution (h : heap) (d : nat) (stock : StockPtr) : float :=
  nth d (Stock.abnormalReturns (h stock)) 0%float.

(** The sum over the members of their contributions on day [d], added from
    the left in member order; the empty sum is 0.0. *)
Definition member_sum (h : heap) (members : list StockPtr) (d : nat) : float :=
  fold_left (fun acc stock => (acc + contribution h d stock)%float) members 0%float.

(** The invariants of a [std::vector] of pointers and of doubles. *)
Definition pointer_vector {A : Type} (v : list A) : Prop :=
  Z.of_nat (length v) <= max_size sizeof_pointer.

Definition double_vector (v : list float) : Prop :=
  Z.of_nat (length v) <= max_size sizeof_double.

(** The float 1.0 as [spec_float]. *)
Definition SFone64 : spec_float := S754_finite false 4503599627370496 (-52).


(** Every group of the analyzer has at most [sampleSize] members. *)
Definition covers (a : StockAnalyzer.t) (sampleSize : Z) : Prop :=
  Z.of_nat (length (Group.stocks (StockAnalyzer.beatGroup a))) <= sampleSize /\
  Z.of_nat (length (Group.stocks (StockAnalyzer.meetGroup a))) <= sampleSize /\
  Z.of_nat (length (Group.stocks (StockAnalyzer.missGroup a))) <= sampleSize.


(** What [calculateCAAR] leaves in [caar] after a successful [calculateAAR]
    on a new group: a vector, none of whose elements is -0.0. *)
Definition caar_like (v : list float) : Prop :=
  double_vector v /\ Forall (fun x => x <> neg_zero) v.

(** ** Concrete data *)

Module Examples.

Definition stock_with (abnormal : list float) : Stock.t :=
  Stock.mk "S" 1%float 1%float "2024-01-01" [] [] abnormal.

(** Two stocks with abnormal returns [1, 2] and [3, 2]. *)
Definition small_heap : heap :=
  fun p =>
    match p with
    | 0%N => stock_with [1; 2]%float
    | 1%N => stock_with [3; 2]%float
    | _ => stock_with []
    end.

(** The second scenario of the specification. *)
Definition scenario_heap : heap :=
  fun p =>
    match p with
    | 0%N => stock_with [0.01; 0.02]%float
    | 1%N => stock_with [0.03; 0.02]%float
    | _ => stock_with []
    end.

Definition two_members : Group.t :=
  Group.addStock (Group.addStock (Group.new "Beat") 0%N) 1%N.

(** [two_members] over [scenario_heap] once [calculateAAR] has run. *)
Definition aggregated : Group.t :=
  Group.mk "Beat" [0%N; 1%N] [0.02; 0.02]%float [].

Definition analyzer : StockAnalyzer.t :=
  StockAnalyzer.mk small_heap two_members (Group.new "Meet") (Group.new "Miss").

(** Stand-ins for the random device and for [std::shuffle]. *)
Definition counting_device (k : nat) : N := N.of_nat k.
Definition reversing_shuffle (seed : N) (v : list StockPtr) : list StockPtr :=
  rev v.

End Examples.

(** ** Reading the price table: [parsePrices] *)

Module Csv.

Definition newline : ascii := "010"%char.
Definition comma : ascii := ","%char.

(** The strings that successive [std::getline(stream, s, delim)] deliver
    until one fails.  A call fails when no character is left; a last piece
    without delimiter is delivered, an empty piece after the last delimiter
    is not. *)
Fixpoint getlines (delim : ascii) (stream : string) : list string :=
  match stream with
  | EmptyString => []
  | String c rest =>
      if Ascii.eqb c delim then EmptyString :: getlines delim rest
      else
        match getlines delim rest with
        | [] => [String c EmptyString]
        | piece :: pieces => String c piece :: pieces
        end
  end.

(** The sixth [std::getline(lineStream, field, ',')] of a row: [date], [open],
    [high], [low], [close], [adjustedClose].  A field the stream no longer
    delivers stays empty. *)
Definition adjustedClose (line : string) : string :=
  nth 5 (getlines comma line) EmptyString.

Section Parse.
(** [std::stod]: [None] when it throws. *)
Variable stod : string -> option float.

(** The body of the row loop: [prices.push_back(std::stod(adjustedClose))]
    inside [try], the [catch] only reports. *)
Definition read_row (prices : list float) (line : string) : list float :=
  match stod (adjustedClose line) with
  | Some price => prices ++ [price]
  | None => prices
  end.

Definition parsePrices (data : string) : list float :=
  (* the first getline is the header *)
  let rows := tl (getlines newline data) in
  let prices := fold_left read_row rows [] in
  (* std::reverse *)
  rev prices.
End Parse.

(** A table as the provider sends it: a header line, then one line per row,
    the cells of a row separated by commas. *)
Definition render_row (cells : list string) : string :=
  String.concat (String comma EmptyString) cells.

Definition render (header : string) (rows : list (list string)) : string :=
  (header ++ String newline EmptyString
   ++ String.concat EmptyString
        (map (fun cells => render_row cells ++ String newline EmptyString) rows))%string.

(** The character does not occur in the string. *)
Fixpoint free_of (c : ascii) (s : string) : Prop :=
  match s with
  | EmptyString => True
  | String c' s' => c' <> c /\ free_of c s'
  end.

End Csv.

(** ** class MarketData *)

Module MarketData.

(** The request of [fetchHistoricalData]; [startDate] and [endDate] are not
    used. *)
Definition url (apiKey symbol startDate endDate : string) : string :=
  ("https://www.alphavantage.co/query?function=TIME_SERIES_DAILY_ADJUSTED"
   ++ "&symbol=" ++ symbol ++ "&apikey=" ++ apiKey ++ "&datatype=csv")%string.

(** The loop of [calculateMarketReturns], as in [Stock::calculateReturns]. *)
Fixpoint returns_from (prev : float) (rest : list float) : list float :=
  match rest with
  | [] => []
  | p :: rest' => ((p - prev) / prev)%float :: returns_from p rest'
  end.

Definition calculateMarketReturns (marketPrices : list float) : list float :=
  match marketPrices with
  | [] => []
  | p0 :: rest => returns_from p0 rest
  end.

Section Fetch.
(** [fetchData]: what the network returns for a request. *)
Variable fetchData : string -> string.
Variable stod : string -> option float.

Definition fetchHistoricalData (apiKey symbol startDate endDate : string)
  : list float :=
  Csv.parsePrices stod (fetchData (url apiKey symbol startDate endDate)).
End Fetch.

End MarketData.

(** ** [StockAnalyzer::retrieveHistoricalData] *)

Module Retrieval.

(** [*p = s]. *)
Definition store (h : heap) (p : StockPtr) (s : Stock.t) : heap :=
  fun q => if N.eqb q p then s else h q.

(** [stock.prices = prices]. *)
Definition set_prices (s : Stock.t) (prices : list float) : Stock.t :=
  Stock.mk (Stock.symbol s) (Stock.epsEstimate s) (Stock.actualEPS s)
    (Stock.earningsDate s) prices (Stock.returns s) (Stock.abnormalReturns s).

(** The analyzer with the members the bootstrap does not read: the API key
    of [marketData], the addresses of the nodes of [stocksMap] in key order,
    and the market series. *)
Record t : Type := mk {
  analyzer : StockAnalyzer.t;
  apiKey : string;
  nodes : list StockPtr;
  marketPrices : list float;
  marketReturns : list float
}.

Section Retrieve.
Variable fetchData : string -> string.
Variable stod : string -> option float.

(** The body of the loop over [stocksMap], for the node at [p]. *)
Definition retrieve_one (key : string) (market : list float)
    (a : StockAnalyzer.t) (p : StockPtr) : StockAnalyzer.t :=
  let stock := StockAnalyzer.stocksMap a p in
  let prices :=
    MarketData.fetchHistoricalData fetchData stod key (Stock.symbol stock) "" "" in
  let stock := set_prices stock prices in
  let stock := Stock.calculateReturns stock in
  let stock := Stock.calculateAbnormalReturns stock market in
  let h := store (StockAnalyzer.stocksMap a) p stock in
  if String.eqb (Stock.getGroup stock) "Beat" then
    StockAnalyzer.mk h (Group.addStock (StockAnalyzer.beatGroup a) p)
      (StockAnalyzer.meetGroup a) (StockAnalyzer.missGroup a)
  else if String.eqb (Stock.getGroup stock) "Meet" then
    StockAnalyzer.mk h (StockAnalyzer.beatGroup a)
      (Group.addStock (StockAnalyzer.meetGroup a) p) (StockAnalyzer.missGroup a)
  else
    StockAnalyzer.mk h (StockAnalyzer.beatGroup a) (StockAnalyzer.meetGroup a)
      (Group.addStock (StockAnalyzer.missGroup a) p).

Definition retrieveHistoricalData (s : t) : outcome t :=
  let marketPrices :=
    MarketData.fetchHistoricalData fetchData stod (apiKey s) "SPY" "" "" in
  let marketReturns := MarketData.calculateMarketReturns marketPrices in
  let a := fold_left (retrieve_one (apiKey s) marketReturns) (nodes s) (analyzer s) in
  match StockAnalyzer.calculateGroupMetrics a with
  | Throws e => Throws e
  | Returns a => Returns (mk a (apiKey s) (nodes s) marketPrices marketReturns)
  end.
End Retrieve.

End Retrieval.

(** ** The CAAR tables: [exportCAARtoCSV] and the export of
    [performBootstrapping] *)

Module Report.

(** [day - 30] for a [size_t day]: the subtraction is unsigned. *)
Definition day_label (day : nat) : Z := to_size_t (Z.of_nat day - 30).

(** [file << n] for an [unsigned long]: decimal digits. *)
Definition show_size_t (n : Z) : string :=
  NilZero.string_of_uint (N.to_uint (Z.to_N n)).

Section Write.
(** [file << x] for a [double]. *)
Variable show_double : float -> string.

(** [if (day < caar.size()) file << caar[day];] *)
Definition cell (caar : list float) (day : nat) : string :=
  match nth_error caar day with
  | Some x => show_double x
  | None => EmptyString
  end.

Definition row (beat meet miss : list float) (day : nat) : string :=
  (show_size_t (day_label day) ++ "," ++ cell beat day ++ "," ++ cell meet day
   ++ "," ++ cell miss day ++ String Csv.newline EmptyString)%string.

(** The lines written: the header, then one line per day below the largest
    of the three sizes. *)
Definition lines (beat meet miss : list float) : list string :=
  let maxDays := Nat.max (length beat) (Nat.max (length meet) (length miss)) in
  ("Day,Beat,Meet,Miss" ++ String Csv.newline EmptyString)%string
  :: map (row beat meet miss) (seq 0 maxDays).

(** What [exportCAARtoCSV] writes once the file is open. *)
Definition exportCAARtoCSV (a : StockAnalyzer.t) : string :=
  String.concat EmptyString
    (lines (Group.caar (StockAnalyzer.beatGroup a))
           (Group.caar (StockAnalyzer.meetGroup a))
           (Group.caar (StockAnalyzer.missGroup a))).

(** What [performBootstrapping] writes to bootstrapped_caar.csv. *)
Definition bootstrapped_csv (c : StockAnalyzer.curves) : string :=
  let '(avgBeatCAAR, avgMeetCAAR, avgMissCAAR) := c in
  String.concat EmptyString (lines avgBeatCAAR avgMeetCAAR avgMissCAAR).
End Write.

End Report.

(** A float that is neither finite nor a zero. *)
Definition not_finite (x : float) : Prop :=
  x = nan \/ x = infinity \/ x = neg_infinity.

(** A double other than the NaNs and the infinities. *)
Definition finite (x : float) : Prop :=
  x <> nan /\ x <> infinity /\ x <> neg_infinity.

(** The label [getGroup] gives the stock at an address. *)
Definition label_of (h : heap) (p : StockPtr) : Label :=
  classify (Stock.epsEstimate (h p)) (Stock.actualEPS (h p)).

Definition has_label (h : heap) (l : Label) (p : StockPtr) : bool :=
  match label_of h p, l with
  | Beat, Beat | Meet, Meet | Miss, Miss => true
  | _, _ => false
  end.

(** Two states of a stock with the same record: symbol, EPS and date. *)
Definition same_record (s s' : Stock.t) : Prop :=
  Stock.symbol s' = Stock.symbol s /\
  Stock.epsEstimate s' = Stock.epsEstimate s /\
  Stock.actualEPS s' = Stock.actualEPS s /\
  Stock.earningsDate s' = Stock.earningsDate s.

(** A stock as the retrieval loop leaves it: the prices fetched for its
    symbol, their returns, and the abnormal returns against the market. *)
Definition retrieved (fetchData : string -> string) (stod : string -> option float)
    (key : string) (market : list float) (s : Stock.t) : Prop :=
  Stock.prices s
    = MarketData.fetchHistoricalData fetchData stod key (Stock.symbol s) "" "" /\
  Stock.returns s = Stock.daily_returns (Stock.prices s) /\
  Stock.abnormalReturns s = Stock.abnormal_loop (Stock.returns s) market.

(** The nodes the loop appends to the group of a label. *)
Definition labelled (h : heap) (l : Label) (nodes : list StockPtr) : list StockPtr :=
  filter (has_label h l) nodes.

(** Every member of a group carries the label of the group. *)
Definition well_sorted (a : StockAnalyzer.t) : Prop :=
  let h := StockAnalyzer.stocksMap a in
  Forall (fun p => has_label h Beat p = true) (Group.stocks (StockAnalyzer.beatGroup a)) /\
  Forall (fun p => has_label h Meet p = true) (Group.stocks (StockAnalyzer.meetGroup a)) /\
  Forall (fun p => has_label h Miss p = true) (Group.stocks (StockAnalyzer.missGroup a)).

(** What [calculateGroupMetrics] establishes on a group. *)
Definition aggregated_from (g g' : Group.t) : Prop :=
  Group.stocks g' = Group.stocks g /\
  Group.name g' = Group.name g /\
  length (Group.caar g') = length (Group.aar g') /\
  forall d, (d < length (Group.aar g'))%nat ->
    nth_error (Group.caar g') d = Some (prefix_sum (Group.aar g') d).

(** ** More concrete data *)

Module Samples.
Local Open Scope string_scope.

(** A price table of three rows, newest first. *)
Definition table : string :=
  Csv.render "timestamp,open,high,low,close,adjusted_close,volume"
    [ ["2024-01-03"; "1"; "1"; "1"; "1"; "99"; "5"];
      ["2024-01-02"; "1"; "1"; "1"; "1"; "101"; "5"];
      ["2024-01-01"; "1"; "1"; "1"; "1"; "100"; "5"] ].

(** A network that answers every request with [table], and a [std::stod]
    that knows three numbers. *)
Definition fetchData (url : string) : string := table.

Definition stod (s : string) : option float :=
  if String.eqb s "99" then Some 99%float
  else if String.eqb s "100" then Some 100%float
  else if String.eqb s "101" then Some 101%float
  else None.

(** Two stocks: A beats its estimate, B meets it. *)
Definition loaded : heap :=
  fun p =>
    match p with
    | 0%N => Stock.new "A" 2%float 2.5%float "2024-01-02"
    | _ => Stock.new "B" 2%float 2%float "2024-01-02"
    end.

Definition session : Retrieval.t :=
  Retrieval.mk
    (StockAnalyzer.mk loaded (Group.new "Beat") (Group.new "Meet") (Group.new "Miss"))
    "" [0%N; 1%N] [] [].

(** A stock whose second price is 0. *)
Definition halted : Stock.t :=
  Stock.mk "H" 1%float 1%float "2024-01-02" [1; 0; 2]%float [] [].

(** [Examples.analyzer] once [calculateGroupMetrics] has run. *)
Definition analyzed : StockAnalyzer.t :=
  StockAnalyzer.mk Examples.small_heap
    (Group.mk "Beat" [0%N; 1%N] [2; 2]%float [2; 4]%float)
    (Group.new "Meet") (Group.new "Miss").

Definition one_member : Group.t := Group.addStock (Group.new "Beat") 0%N.

End Samples.

(** The stocks at these addresses have abnormal-return vectors whose size
    an [int] holds. *)
Definition int_sized (h : heap) (v : list StockPtr) : Prop :=
  Forall (fun p => Z.of_nat (length (Stock.abnormalReturns (h p))) <= INT_MAX) v.

Definition groups_int_sized (a : StockAnalyzer.t) : Prop :=
  int_sized (StockAnalyzer.stocksMap a) (Group.stocks (StockAnalyzer.beatGroup a)) /\
  int_sized (StockAnalyzer.stocksMap a) (Group.stocks (StockAnalyzer.meetGroup a)) /\
  int_sized (StockAnalyzer.stocksMap a) (Group.stocks (StockAnalyzer.missGroup a)).

(** The average the bootstrap takes of [iterations] copies of one vector. *)
Definition copies_average (iterations : Z) (v : list float) : list float :=
  StockAnalyzer.average iterations (Z.of_nat (length v))
    (repeat v (Z.to_nat iterations)) (repeat 0%float (length v)).

(** The CAAR of a temporary group that holds every member of [g]. *)
Definition whole_group_caar (h : heap) (groupName : string) (g : Group.t)
  : outcome (list float) :=
  match StockAnalyzer.tempCAAR h (StockAnalyzer.tempGroup groupName (Group.stocks g)) O with
  | Returns (v, _) => Returns v
  | Throws e => Throws e
  end.

(** * Facts on binary64 arithmetic

    [FloatAxioms] specifies the primitive operations by the functions of
    [SpecFloat].  The lemmas below follow those functions: a non-zero sum
    never rounds to a zero, and division by 1.0 is exact. *)

(** [SpecFloat] is written with the integer operations of [Corelib]; [lia]
    knows those of [BinInt]. *)
Ltac binint :=
  change IntDef.Z.add with Z.add in *;
  change IntDef.Z.sub with Z.sub in *;
  change IntDef.Z.opp with Z.opp in *;
  change IntDef.Z.mul with Z.mul in *;
  change IntDef.Z.max with Z.max in *;
  change IntDef.Z.min with Z.min in *;
  change IntDef.Z.leb with Z.leb in *;
  change IntDef.Z.eqb with Z.eqb in *.

Section Binary64.

Lemma fexp_eq (x : Z) : fexp prec emax x = Z.max (x - 53) (-1074).
Proof. reflexivity. Qed.

Lemma emin_eq : emin = -1074.
Proof. reflexivity. Qed.

Lemma div_eucl_div_mod (a b : Z) : Z.div_eucl a b = (a / b, a mod b).
Proof. unfold Z.div, Z.modulo. destruct (Z.div_eucl a b). reflexivity. Qed.

(** An invariant carried through [iter_pos]. *)
Lemma iter_pos_invariant {A : Type} (f : A -> A) (P : Z -> A -> Prop) :
  (forall k x, P k x -> P (k + 1) (f x)) ->
  forall p k x, P k x -> P (k + Zpos p) (SpecFloat.iter_pos f p x).
Proof.
  intros step. induction p as [p IH | p IH | ]; intros k x Hx; simpl.
  - replace (k + Zpos p~1) with (((k + 1) + Zpos p) + Zpos p) by lia.
    apply IH, IH, step, Hx.
  - replace (k + Zpos p~0) with ((k + Zpos p) + Zpos p) by lia.
    apply IH, IH, Hx.
  - apply step, Hx.
Qed.

(** One right shift takes one digit off a non-negative mantissa. *)
Lemma shr_1_digits (d k : Z) (mrs : shr_record) :
  0 <= shr_m mrs /\ Zdigits2 (shr_m mrs) = Z.max 0 (d - k) ->
  0 <= shr_m (shr_1 mrs) /\ Zdigits2 (shr_m (shr_1 mrs)) = Z.max 0 (d - (k + 1)).
Proof.
  destruct mrs as [m r s]; simpl. intros [Hm Hd].
  destruct m as [ | [p | p | ] | p ]; simpl in *; try lia.
Qed.

Lemma shr_digits (mrs : shr_record) (e n : Z) :
  0 <= shr_m mrs ->
  0 <= shr_m (fst (shr mrs e n)) /\
  Zdigits2 (shr_m (fst (shr mrs e n))) = Z.max 0 (Zdigits2 (shr_m mrs) - Z.max 0 n) /\
  snd (shr mrs e n) = e + Z.max 0 n.
Proof.
  intros Hm. destruct n as [ | p | p ]; simpl.
  - split; [exact Hm | split; [ | lia] ].
    destruct (shr_m mrs); simpl in *; lia.
  - pose proof (iter_pos_invariant shr_1
      (fun k x => 0 <= shr_m x /\ Zdigits2 (shr_m x) = Z.max 0 (Zdigits2 (shr_m mrs) - k))
      (shr_1_digits (Zdigits2 (shr_m mrs))) p 0 mrs) as H.
    simpl in H. destruct H as [H1 H2].
    + split; [exact Hm | ]. destruct (shr_m mrs); simpl in *; lia.
    + split; [exact H1 | split; [ | lia] ]. rewrite H2. lia.
  - split; [exact Hm | split; [ | lia] ].
    destruct (shr_m mrs); simpl in *; lia.
Qed.

Lemma shr_record_of_loc_m (m : Z) (l : location) : shr_m (shr_record_of_loc m l) = m.
Proof. destruct l as [ | [ | | ] ]; reflexivity. Qed.

Lemma Zdigits2_pos (m : Z) : 0 < m -> 0 < Zdigits2 m.
Proof. destruct m; simpl; lia. Qed.

Lemma Zdigits2_zero (m : Z) : 0 <= m -> 0 < Zdigits2 m -> 0 < m.
Proof. destruct m; simpl; lia. Qed.

Lemma round_nearest_even_pos (m : Z) (l : location) :
  0 < m -> 0 < round_nearest_even m l.
Proof.
  intros Hm. destruct l as [ | [ | | ] ]; simpl; try lia.
  destruct (Z.even m); lia.
Qed.

(** Right shift to the canonical exponent of a positive mantissa whose top
    digit is above [emin] leaves a positive mantissa. *)
Lemma shr_fexp_pos (m e : Z) (l : location) :
  0 < m -> emin < Zdigits2 m + e ->
  0 < shr_m (fst (shr_fexp prec emax m e l)) /\ emin <= snd (shr_fexp prec emax m e l).
Proof.
  intros Hm He. unfold shr_fexp. binint.
  destruct (shr_digits (shr_record_of_loc m l) e
              (fexp prec emax (Zdigits2 m + e) - e)) as (H1 & H2 & H3).
  - rewrite shr_record_of_loc_m. lia.
  - rewrite shr_record_of_loc_m in H2.
    pose proof (Zdigits2_pos m Hm) as Hd.
    rewrite ?fexp_eq, ?emin_eq in *.
    split; [ | lia].
    apply Zdigits2_zero; [exact H1 | ]. lia.
Qed.

Lemma binary_round_aux_not_zero (s s' : bool) (m : positive) (e : Z) (l : location) :
  emin < Zpos (digits2_pos m) + e ->
  binary_round_aux prec emax s (Zpos m) e l <> S754_zero s'.
Proof.
  intros He. unfold binary_round_aux.
  destruct (shr_fexp_pos (Zpos m) e l) as [H1 H2]; [lia | exact He | ].
  destruct (shr_fexp prec emax (Zpos m) e l) as [mrs' e']. simpl in H1, H2.
  pose proof (round_nearest_even_pos (shr_m mrs') (loc_of_shr_record mrs') H1) as Hr.
  destruct (shr_fexp_pos (round_nearest_even (shr_m mrs') (loc_of_shr_record mrs')) e' loc_Exact)
    as [H3 H4]; [exact Hr | | ].
  - pose proof (Zdigits2_pos _ Hr). lia.
  - destruct (shr_fexp prec emax _ e' loc_Exact) as [mrs'' e'']. simpl in H3.
    destruct (shr_m mrs''); try lia.
    destruct (e'' <=? emax - prec); discriminate.
Qed.

Lemma shl_align_fst_snd (mx : positive) (ex ex' : Z) :
  snd (shl_align mx ex ex') = Z.min ex ex' /\
  Zpos (digits2_pos mx) <= Zpos (digits2_pos (fst (shl_align mx ex ex'))).
Proof.
  unfold shl_align. destruct (ex' - ex) as [ | p | p ] eqn:E; simpl; try lia.
  split; [lia | ].
  apply (Pos.iter_invariant p positive xO
           (fun y => Zpos (digits2_pos mx) <= Zpos (digits2_pos y))).
  - intros y Hy. simpl. lia.
  - lia.
Qed.

Lemma binary_round_not_zero (s s' : bool) (m : positive) (e : Z) :
  emin <= e -> binary_round prec emax s m e <> S754_zero s'.
Proof.
  intros He. unfold binary_round.
  pose proof (shl_align_fst_snd m e (fexp prec emax (Zpos (digits2_pos m) + e))) as [H1 H2].
  destruct (shl_align m e _) as [mz ez]. simpl in H1, H2.
  apply binary_round_aux_not_zero.
  rewrite ?fexp_eq, ?emin_eq in *. lia.
Qed.


Lemma valid_finite (s : bool) (m : positive) (e : Z) :
  valid_binary (S754_finite s m e) = true ->
  Z.max (Zpos (digits2_pos m) + e - 53) (-1074) = e /\ e <= 971.
Proof.
  unfold valid_binary, bounded, canonical_mantissa. rewrite fexp_eq. binint.
  intros H. apply andb_true_iff in H. destruct H as [H1 H2].
  apply Z.eqb_eq in H1. apply Z.leb_le in H2.
  change (emax - prec) with 971 in H2. split; assumption.
Qed.

(** Addition yields -0 only from two -0 operands: a non-zero exact sum never
    rounds to zero, and an exact zero sum is +0. *)
Lemma SFadd_neg_zero (x y : spec_float) :
  valid_binary x = true -> valid_binary y = true ->
  SF64add x y = S754_zero true -> x = S754_zero true.
Proof.
  intros Hx Hy.
  destruct x as [sx | sx | | sx mx ex], y as [sy | sy | | sy my ey];
    unfold SF64add, SFadd;
    try solve [ repeat match goal with b : bool |- _ => destruct b end; congruence ].
  apply valid_finite in Hx, Hy. binint.
  set (m := _ + _).
  intros H. exfalso. revert H.
  destruct m as [ | p | p ]; simpl.
  - discriminate.
  - apply binary_round_not_zero. rewrite emin_eq. lia.
  - apply binary_round_not_zero. rewrite emin_eq. lia.
Qed.

Lemma SFadd_zero_l (y : spec_float) :
  y <> S754_zero true -> SF64add (S754_zero false) y = y.
Proof.
  destruct y as [ [ | ] | | | ]; simpl; congruence.
Qed.

Lemma SFdiv_core_one (mx : positive) (ex : Z) :
  Z.max (Zpos (digits2_pos mx) + ex - 53) (-1074) = ex ->
  SFdiv_core_binary prec emax (Zpos mx) ex 4503599627370496 (-52) =
  if ex =? -1074 then (Zpos mx, ex, loc_Exact) else (Zpos mx~0, ex - 1, loc_Exact).
Proof.
  intros Hc. unfold SFdiv_core_binary. rewrite fexp_eq. binint.
  change (Zdigits2 4503599627370496) with 53.
  change (Zdigits2 (Zpos mx)) with (Zpos (digits2_pos mx)).
  destruct (Z.eqb_spec ex (-1074)) as [E | E].
  - replace (Z.min _ _) with ex by lia.
    replace (ex - -52 - ex) with 52 by lia.
    rewrite div_eucl_div_mod, Z.shiftl_mul_pow2 by lia.
    change (2 ^ 52) with 4503599627370496.
    rewrite Z.div_mul, Z.mod_mul by lia. reflexivity.
  - replace (Z.min _ _) with (ex - 1) by lia.
    replace (ex - -52 - (ex - 1)) with 53 by lia.
    rewrite div_eucl_div_mod, Z.shiftl_mul_pow2 by lia.
    change (2 ^ 53) with (2 * 4503599627370496).
    rewrite Z.mul_assoc, Z.div_mul, Z.mod_mul by lia.
    replace (Zpos mx * 2) with (Zpos mx~0) by lia. reflexivity.
Qed.

(** A canonical mantissa is not shifted. *)
Lemma shr_fexp_canonical (m : positive) (e : Z) :
  Z.max (Zpos (digits2_pos m) + e - 53) (-1074) = e ->
  shr_fexp prec emax (Zpos m) e loc_Exact =
  ({| shr_m := Zpos m; shr_r := false; shr_s := false |}, e).
Proof.
  intros Hc. unfold shr_fexp. rewrite fexp_eq. binint.
  change (Zdigits2 (Zpos m)) with (Zpos (digits2_pos m)).
  replace (Z.max _ _ - e) with 0 by lia. reflexivity.
Qed.

(** A canonical mantissa with one more binary zero is shifted back. *)
Lemma shr_fexp_double (m : positive) (e : Z) :
  Z.max (Zpos (digits2_pos m) + e - 53) (-1074) = e -> e <> -1074 ->
  shr_fexp prec emax (Zpos m~0) (e - 1) loc_Exact =
  ({| shr_m := Zpos m; shr_r := false; shr_s := false |}, e).
Proof.
  intros Hc Hn. unfold shr_fexp. rewrite fexp_eq. binint.
  change (Zdigits2 (Zpos m~0)) with (Zpos (Pos.succ (digits2_pos m))).
  rewrite Pos2Z.inj_succ.
  replace (Z.max _ _ - (e - 1)) with 1 by lia.
  cbn [shr shr_record_of_loc SpecFloat.iter_pos shr_1 orb]. binint.
  f_equal. lia.
Qed.

Lemma binary_round_aux_finish (s : bool) (m : positive) (e : Z) :
  Z.max (Zpos (digits2_pos m) + e - 53) (-1074) = e -> e <= 971 ->
  (let '(mrs, e') :=
     shr_fexp prec emax
       (round_nearest_even (Zpos m)
          (loc_of_shr_record {| shr_m := Zpos m; shr_r := false; shr_s := false |}))
       e loc_Exact in
   match shr_m mrs with
   | Z0 => S754_zero s
   | Zpos m0 => if Z.leb e' (Z.sub emax prec) then S754_finite s m0 e' else S754_infinity s
   | Zneg _ => S754_nan
   end) = S754_finite s m e.
Proof.
  intros Hc He. cbn [loc_of_shr_record round_nearest_even].
  rewrite (shr_fexp_canonical m e Hc). cbn [shr_m].
  change (emax - prec) with 971.
  destruct (Z.leb_spec e 971); [reflexivity | lia].
Qed.

Lemma binary_round_aux_canonical (s : bool) (m : positive) (e : Z) :
  Z.max (Zpos (digits2_pos m) + e - 53) (-1074) = e -> e <= 971 ->
  binary_round_aux prec emax s (Zpos m) e loc_Exact = S754_finite s m e.
Proof.
  intros Hc He. unfold binary_round_aux.
  rewrite (shr_fexp_canonical m e Hc). cbn [shr_m].
  apply binary_round_aux_finish; assumption.
Qed.

Lemma binary_round_aux_double (s : bool) (m : positive) (e : Z) :
  Z.max (Zpos (digits2_pos m) + e - 53) (-1074) = e -> e <= 971 -> e <> -1074 ->
  binary_round_aux prec emax s (Zpos m~0) (e - 1) loc_Exact = S754_finite s m e.
Proof.
  intros Hc He Hn. unfold binary_round_aux.
  rewrite (shr_fexp_double m e Hc Hn). cbn [shr_m].
  apply binary_round_aux_finish; assumption.
Qed.

Lemma SFdiv_one (x : spec_float) :
  valid_binary x = true -> SF64div x SFone64 = x.
Proof.
  intros Hx. destruct x as [ [ | ] | [ | ] | | sx mx ex]; try reflexivity.
  apply valid_finite in Hx. destruct Hx as [Hc He].
  unfold SF64div, SFdiv, SFone64. rewrite (SFdiv_core_one mx ex Hc).
  replace (xorb sx false) with sx by (destruct sx; reflexivity).
  destruct (Z.eqb_spec ex (-1074)) as [E | E].
  - apply binary_round_aux_canonical; assumption.
  - apply binary_round_aux_double; assumption.
Qed.

(** The facts on [double] drawn from the specification of binary64. *)

Lemma neg_zero_spec (x : float) : Prim2SF x = S754_zero true <-> x = neg_zero.
Proof.
  split; intros H.
  - apply Prim2SF_inj. rewrite H. reflexivity.
  - rewrite H. reflexivity.
Qed.

Lemma div_one (x : float) : (x / 1)%float = x.
Proof.
  apply Prim2SF_inj. rewrite div_spec.
  change (Prim2SF 1) with SFone64.
  apply SFdiv_one, Prim2SF_valid.
Qed.

Lemma add_zero_l (x : float) : x <> neg_zero -> (0 + x)%float = x.
Proof.
  intros Hx. apply Prim2SF_inj. rewrite add_spec.
  change (Prim2SF 0) with (S754_zero false).
  apply SFadd_zero_l. rewrite neg_zero_spec. exact Hx.
Qed.

Lemma add_not_neg_zero (x y : float) : x <> neg_zero -> (x + y)%float <> neg_zero.
Proof.
  intros Hx H. apply Hx. apply neg_zero_spec.
  apply (SFadd_neg_zero (Prim2SF x) (Prim2SF y)); try apply Prim2SF_valid.
  rewrite <- add_spec. apply neg_zero_spec, H.
Qed.

End Binary64.

(** * The classifier: [Stock::getSurprisePercentage] and [Stock::getGroup] *)

Section ClassifierFacts.

Lemma ltb_below_not_above (x : float) :
  (x <? -5)%float = true -> (5 <? x)%float = false.
Proof.
  rewrite !ltb_spec.
  change (Prim2SF (-5)) with (S754_finite true 5629499534213120 (-50)).
  change (Prim2SF 5) with (S754_finite false 5629499534213120 (-50)).
  destruct (Prim2SF x) as [ [ | ] | [ | ] | | [ | ] m e ];
    unfold SFltb, SFcompare; intros H; try reflexivity; discriminate H.
Qed.

Lemma surprise_double (e a : float) :
  surprisePercentage e a =
  (if (e =? 0)%float then 0 else (a - e) / abs e * 100)%float.
Proof.
  unfold surprisePercentage. cbn [a_eqb a_mul a_div a_sub a_abs binary64].
  change (a_lit 0) with 0%float. change (a_lit 100) with 100%float.
  destruct (e =? 0)%float; reflexivity.
Qed.

Lemma classify_double (e a : float) :
  classify e a =
  let surprise := surprisePercentage e a in
  if (5 <? surprise)%float then Beat
  else if (surprise <? -5)%float then Miss else Meet.
Proof. reflexivity. Qed.

(** C9.  The surprise percentage is [(actualEPS - epsEstimate) /
    |epsEstimate| * 100], and 0 when the estimate compares equal to 0; the
    label is Beat exactly when it exceeds 5.0, Miss exactly when it is below
    -5.0 and Meet in every other case, so an estimate of 0 gives Meet.  Both
    functions are total and return a value only. *)
Theorem classifier_thresholds (s : Stock.t) :
  let e := Stock.epsEstimate s in
  let a := Stock.actualEPS s in
  let surprise := Stock.getSurprisePercentage s in
  surprise = (if (e =? 0)%float then 0 else (a - e) / abs e * 100)%float /\
  (Stock.getGroup s = "Beat"%string <-> (5 <? surprise)%float = true) /\
  (Stock.getGroup s = "Miss"%string <-> (surprise <? -5)%float = true) /\
  (Stock.getGroup s = "Meet"%string <->
     (5 <? surprise)%float = false /\ (surprise <? -5)%float = false) /\
  ((e =? 0)%float = true ->
     surprise = 0%float /\ Stock.getGroup s = "Meet"%string).
Proof.
  intros e a surprise.
  assert (Hs : surprise = (if (e =? 0)%float then 0 else (a - e) / abs e * 100)%float)
    by apply surprise_double.
  assert (Hg : Stock.getGroup s =
               label_name (if (5 <? surprise)%float then Beat
                           else if (surprise <? -5)%float then Miss else Meet))
    by reflexivity.
  split; [exact Hs | ].
  pose proof (ltb_below_not_above surprise) as Hlt.
  rewrite Hg.
  repeat split.
  - destruct (5 <? surprise)%float; [reflexivity | ].
    destruct (surprise <? -5)%float; discriminate.
  - intros H. rewrite H. reflexivity.
  - destruct (surprise <? -5)%float; [reflexivity | ].
    destruct (5 <? surprise)%float; discriminate.
  - intros H. rewrite (Hlt H), H. reflexivity.
  - destruct (5 <? surprise)%float; [discriminate | reflexivity].
  - destruct (5 <? surprise)%float; [discriminate | ].
    destruct (surprise <? -5)%float; [discriminate | reflexivity].
  - intros [H1 H2]. rewrite H1, H2. reflexivity.
  - rewrite Hs, H. reflexivity.
  - assert (H0 : surprise = 0%float) by (rewrite Hs, H; reflexivity).
    rewrite H0. reflexivity.
Qed.


End ClassifierFacts.

(** * Scaling both EPS values by a power of two *)

Section PowerOfTwo.


















End PowerOfTwo.


(** * [Stock::calculateAbnormalReturns] *)

Section StockFacts.

Lemma abnormal_loop_length (rs ms : list float) :
  length (Stock.abnormal_loop rs ms) = Nat.min (length rs) (length ms).
Proof.
  revert ms. induction rs as [ | r rs IH]; intros [ | m ms]; simpl; try reflexivity.
  rewrite IH. reflexivity.
Qed.

Lemma abnormal_loop_nth (rs ms : list float) (i : nat) (r m : float) :
  nth_error rs i = Some r -> nth_error ms i = Some m ->
  nth_error (Stock.abnormal_loop rs ms) i = Some (r - m)%float.
Proof.
  revert ms i. induction rs as [ | r0 rs IH]; intros [ | m0 ms] [ | i]; simpl;
    try discriminate.
  - intros Hr Hm. injection Hr as ->. injection Hm as ->. reflexivity.
  - apply IH.
Qed.

(** C5.  The abnormal returns have the length of the shorter of the two
    inputs, and element [i] is [returns[i] - marketReturns[i]]; the function
    returns for inputs of any lengths. *)
Theorem abnormal_returns_truncate (s : Stock.t) (marketReturns : list float) :
  let s' := Stock.calculateAbnormalReturns s marketReturns in
  length (Stock.abnormalReturns s') =
    Nat.min (length (Stock.returns s)) (length marketReturns) /\
  (forall i r m,
      nth_error (Stock.returns s) i = Some r ->
      nth_error marketReturns i = Some m ->
      nth_error (Stock.abnormalReturns s') i = Some (r - m)%float) /\
  (forall i, (Nat.min (length (Stock.returns s)) (length marketReturns) <= i)%nat ->
      nth_error (Stock.abnormalReturns s') i = None).
Proof.
  cbn [Stock.calculateAbnormalReturns Stock.abnormalReturns].
  split; [apply abnormal_loop_length | split].
  - intros i r m. apply abnormal_loop_nth.
  - intros i Hi. apply nth_error_None. rewrite abnormal_loop_length. exact Hi.
Qed.

End StockFacts.

(** * [Group::calculateCAAR] *)

Section CaarFacts.

Lemma running_sum_length (c : float) (v : list float) :
  length (Group.running_sum c v) = length v.
Proof.
  revert c. induction v as [ | x v IH]; intros c; simpl; [reflexivity | ].
  rewrite IH. reflexivity.
Qed.

Lemma running_sum_nth (c : float) (v : list float) (d : nat) :
  (d < length v)%nat ->
  nth_error (Group.running_sum c v) d =
  Some (fold_left PrimFloat.add (firstn (S d) v) c).
Proof.
  revert c d. induction v as [ | x v IH]; intros c d Hd; simpl in Hd; [lia | ].
  destruct d as [ | d].
  - simpl. destruct v; reflexivity.
  - cbn [Group.running_sum nth_error]. rewrite IH by lia. reflexivity.
Qed.

(** C6.  [calculateCAAR] stores a vector as long as [aar] whose element [d]
    is the sum of [aar[0..d]]; it is empty when [aar] is. *)
Theorem caar_prefix_sums (g : Group.t) :
  let g' := Group.calculateCAAR g in
  Group.aar g' = Group.aar g /\
  length (Group.caar g') = length (Group.aar g') /\
  (forall d, (d < length (Group.aar g))%nat ->
      nth_error (Group.caar g') d = Some (prefix_sum (Group.aar g) d)) /\
  (Group.aar g = [] -> Group.caar g' = []).
Proof.
  cbn [Group.calculateCAAR Group.set_caar Group.aar Group.caar].
  split; [reflexivity | split; [apply running_sum_length | split] ].
  - intros d Hd. apply running_sum_nth, Hd.
  - intros ->. reflexivity.
Qed.

(** [calculateCAAR] clears [caar] first: a second call changes nothing. *)
Lemma calculateCAAR_idempotent (g : Group.t) :
  Group.calculateCAAR (Group.calculateCAAR g) = Group.calculateCAAR g.
Proof. reflexivity. Qed.

End CaarFacts.

(** * [Group::sampleStocks] *)

Section SamplingFacts.
Variable rd : nat -> N.
Variable shuffle : N -> list StockPtr -> list StockPtr.

Lemma to_size_t_nonneg (z : Z) : 0 <= z <= INT_MAX -> to_size_t z = z.
Proof.
  unfold to_size_t, INT_MAX. intros H. apply Z.mod_small. lia.
Qed.

Lemma to_size_t_negative (z : Z) : INT_MIN <= z < 0 -> to_size_t z = 2 ^ 64 + z.
Proof.
  unfold to_size_t, INT_MIN. intros H.
  symmetry. apply (Z.mod_unique z (2 ^ 64) (-1) (2 ^ 64 + z)); lia.
Qed.

Lemma pointer_vector_below_negative {A : Type} (v : list A) (z : Z) :
  pointer_vector v -> INT_MIN <= z < 0 -> Z.of_nat (length v) < to_size_t z.
Proof.
  unfold pointer_vector. intros Hv Hz. rewrite (to_size_t_negative z Hz).
  change (max_size sizeof_pointer) with 1152921504606846975 in Hv.
  unfold INT_MIN in Hz. lia.
Qed.

(** At or above the group size the members are returned as they are. *)
Lemma sampleStocks_all (g : Group.t) (sampleSize : Z) (k : nat) :
  is_int sampleSize -> Z.of_nat (length (Group.stocks g)) <= sampleSize ->
  Group.sampleStocks rd shuffle g sampleSize k = Returns (Group.stocks g, k).
Proof.
  unfold is_int. intros Hi Hs. unfold Group.sampleStocks.
  rewrite to_size_t_nonneg by lia.
  destruct (Z.leb_spec (Z.of_nat (length (Group.stocks g))) sampleSize); [reflexivity | lia].
Qed.

Lemma sampleStocks_negative (g : Group.t) (sampleSize : Z) (k : nat) :
  is_int sampleSize -> pointer_vector (Group.stocks g) -> sampleSize < 0 ->
  Group.sampleStocks rd shuffle g sampleSize k = Returns (Group.stocks g, k).
Proof.
  unfold is_int. intros Hi Hv Hs. unfold Group.sampleStocks.
  pose proof (pointer_vector_below_negative (Group.stocks g) sampleSize Hv) as H.
  destruct (Z.leb_spec (Z.of_nat (length (Group.stocks g))) (to_size_t sampleSize));
    [reflexivity | lia].
Qed.

Lemma sampleStocks_zero (g : Group.t) (k : nat) :
  exists k', Group.sampleStocks rd shuffle g 0 k = Returns ([], k') /\
             (Group.stocks g <> [] -> k' = S k).
Proof.
  unfold Group.sampleStocks. change (to_size_t 0) with 0.
  destruct (Group.stocks g) as [ | p v] eqn:E.
  - exists k. split; [reflexivity | congruence].
  - exists (S k). split; [ | reflexivity].
    cbn [length]. destruct (Z.leb_spec (Z.of_nat (S (length v))) 0); [lia | reflexivity].
Qed.

(** C4.  On a group with a member, a negative sample size converts to a
    [size_t] above the member count and the full member vector is returned;
    a sample size of 0 gives an empty sample. *)
Theorem sample_nonpositive_size (g : Group.t) (sampleSize : Z) (k : nat) :
  is_int sampleSize ->
  pointer_vector (Group.stocks g) ->
  Group.stocks g <> [] ->
  (sampleSize < 0 ->
     Z.of_nat (length (Group.stocks g)) < to_size_t sampleSize /\
     Group.sampleStocks rd shuffle g sampleSize k = Returns (Group.stocks g, k)) /\
  (sampleSize = 0 ->
     Group.sampleStocks rd shuffle g sampleSize k = Returns ([], S k)).
Proof.
  intros Hi Hv Hne. split.
  - intros Hs. split.
    + apply pointer_vector_below_negative; [exact Hv | unfold is_int in Hi; lia].
    + apply sampleStocks_negative; assumption.
  - intros ->. destruct (sampleStocks_zero g k) as (k' & E & Hk).
    rewrite E, (Hk Hne). reflexivity.
Qed.

End SamplingFacts.

(** C7.  For a sample size at or above the number of members, [sampleStocks]
    returns the member vector itself and builds no random device; the
    outcome is the same under any other random device and shuffle. *)
Theorem sample_at_or_above_size (rd rd' : nat -> N)
    (shuffle shuffle' : N -> list StockPtr -> list StockPtr)
    (g : Group.t) (sampleSize : Z) (k : nat) :
  is_int sampleSize ->
  Z.of_nat (length (Group.stocks g)) <= sampleSize ->
  Group.sampleStocks rd shuffle g sampleSize k = Returns (Group.stocks g, k) /\
  Group.sampleStocks rd' shuffle' g sampleSize k
  = Group.sampleStocks rd shuffle g sampleSize k.
Proof.
  intros Hi Hs. unfold is_int in Hi.
  assert (H : forall r s, Group.sampleStocks r s g sampleSize k = Returns (Group.stocks g, k)).
  { intros r s. unfold Group.sampleStocks.
    rewrite to_size_t_nonneg by lia.
    destruct (Z.leb_spec (Z.of_nat (length (Group.stocks g))) sampleSize);
      [reflexivity | lia]. }
  split; [apply H | ]. rewrite !H. reflexivity.
Qed.

(** A sample of 2 from a group of two members. *)
Lemma sample_at_or_above_size_witness :
  Group.sampleStocks Examples.counting_device Examples.reversing_shuffle
    Examples.two_members 2 0%nat = Returns (Group.stocks Examples.two_members, 0%nat) /\
  Group.sampleStocks (fun _ => 7%N) (fun _ v => v) Examples.two_members 2 0%nat
  = Group.sampleStocks Examples.counting_device Examples.reversing_shuffle
      Examples.two_members 2 0%nat.
Proof.
  apply sample_at_or_above_size.
  - unfold is_int, INT_MIN, INT_MAX. lia.
  - simpl. lia.
Defined.

(** Sample sizes -1 and 0 on a group of two members. *)
Lemma sample_nonpositive_size_witness :
  (Z.of_nat (length (Group.stocks Examples.two_members)) < to_size_t (-1) /\
   Group.sampleStocks Examples.counting_device Examples.reversing_shuffle
     Examples.two_members (-1) 0%nat
   = Returns (Group.stocks Examples.two_members, 0%nat)) /\
  Group.sampleStocks Examples.counting_device Examples.reversing_shuffle
    Examples.two_members 0 0%nat = Returns ([], 1%nat).
Proof.
  assert (Hv : pointer_vector (Group.stocks Examples.two_members))
    by (vm_compute; discriminate).
  assert (Hne : Group.stocks Examples.two_members <> []) by discriminate.
  split.
  - apply (sample_nonpositive_size Examples.counting_device Examples.reversing_shuffle
             Examples.two_members (-1) 0%nat);
      [unfold is_int, INT_MIN, INT_MAX; lia | exact Hv | exact Hne | lia].
  - apply (sample_nonpositive_size Examples.counting_device Examples.reversing_shuffle
             Examples.two_members 0 0%nat);
      [unfold is_int, INT_MIN, INT_MAX; lia | exact Hv | exact Hne | reflexivity].
Defined.

(** * Vector loops *)

Section VectorFacts.

Lemma resize_length {A : Type} (n : nat) (x : A) (v : list A) :
  length (resize n x v) = n.
Proof.
  unfold resize. rewrite length_app, length_firstn, repeat_length. lia.
Qed.

Lemma resize_nil {A : Type} (n : nat) (x : A) : resize n x [] = repeat x n.
Proof.
  unfold resize. rewrite firstn_nil, Nat.sub_0_r. reflexivity.
Qed.

Lemma add_days_length (n : nat) (acc src : list float) :
  length (add_days n acc src) = length acc.
Proof.
  revert acc src. induction n as [ | n IH]; intros [ | a acc] [ | x src]; simpl;
    try reflexivity.
  rewrite IH. reflexivity.
Qed.

Lemma div_days_length (n : nat) (d : float) (v : list float) :
  length (div_days n d v) = length v.
Proof.
  revert v. induction n as [ | n IH]; intros [ | x v]; simpl; try reflexivity.
  rewrite IH. reflexivity.
Qed.

Lemma sum_members_length (h : heap) (n : nat) (members : list StockPtr)
    (acc : list float) :
  length (Group.sum_members h n members acc) = length acc.
Proof.
  unfold Group.sum_members. revert acc.
  induction members as [ | p members IH]; intros acc; simpl; [reflexivity | ].
  rewrite IH. apply add_days_length.
Qed.

(** Adding a vector free of -0.0 onto zeros gives the vector back. *)
Lemma add_days_zeros (v : list float) :
  Forall (fun x => x <> neg_zero) v ->
  add_days (length v) (repeat 0%float (length v)) v = v.
Proof.
  induction 1 as [ | x v Hx Hv IH]; simpl; [reflexivity | ].
  rewrite IH, (add_zero_l x Hx). reflexivity.
Qed.

Lemma div_days_one (v : list float) : div_days (length v) 1%float v = v.
Proof.
  induction v as [ | x v IH]; simpl; [reflexivity | ].
  rewrite IH, div_one. reflexivity.
Qed.

Lemma zero_not_neg_zero : 0%float <> neg_zero.
Proof.
  intros H. apply (f_equal Prim2SF) in H. discriminate H.
Qed.

Lemma running_sum_not_neg_zero (c : float) (v : list float) :
  c <> neg_zero -> Forall (fun x => x <> neg_zero) (Group.running_sum c v).
Proof.
  revert c. induction v as [ | x v IH]; intros c Hc; simpl; constructor.
  - apply add_not_neg_zero, Hc.
  - apply IH, add_not_neg_zero, Hc.
Qed.

End VectorFacts.

(** * [Group::calculateAAR] *)

Section AarFacts.
Variable h : heap.

Lemma to_size_t_range (z : Z) : 0 <= to_size_t z < 2 ^ 64.
Proof. unfold to_size_t. apply Z.mod_pos_bound. lia. Qed.

Lemma checked_resize_returns {A : Type} (elem n : Z) (x : A) (v v' : list A) :
  0 <= n ->
  checked_resize elem n x v = Returns v' ->
  n <= max_size elem /\ v' = resize (Z.to_nat n) x v /\ Z.of_nat (length v') = n.
Proof.
  unfold checked_resize. intros Hn.
  destruct (Z.ltb_spec (max_size elem) n); [discriminate | ].
  intros E. injection E as <-. rewrite resize_length.
  repeat split; [assumption | lia].
Qed.

(** A successful [calculateAAR] keeps the members and leaves a vector. *)
Lemma calculateAAR_returns (g g' : Group.t) :
  Group.calculateAAR h g = Returns g' ->
  Group.stocks g' = Group.stocks g /\ Group.caar g' = Group.caar g /\
  Group.name g' = Group.name g /\
  (double_vector (Group.aar g) -> double_vector (Group.aar g')).
Proof.
  unfold Group.calculateAAR.
  destruct (Group.stocks g) as [ | first rest] eqn:Es.
  - intros E. injection E as <-. rewrite Es. auto.
  - set (n := to_size_t _).
    destruct (checked_resize sizeof_double n 0%float (Group.aar g)) as [aar0 | e] eqn:Er;
      [ | discriminate].
    intros E. injection E as <-.
    cbn [Group.set_aar Group.stocks Group.caar Group.name Group.aar].
    repeat split; try assumption.
    intros _. unfold double_vector.
    apply checked_resize_returns in Er; [ | apply to_size_t_range].
    destruct Er as (Hn & _ & Hl).
    rewrite div_days_length, sum_members_length, ?add_days_length, Hl. exact Hn.
Qed.

Lemma tempGroup_fields (groupName : string) (sample : list StockPtr) :
  let g := StockAnalyzer.tempGroup groupName sample in
  Group.stocks g = sample /\ Group.aar g = [] /\ Group.caar g = [].
Proof.
  unfold StockAnalyzer.tempGroup.
  assert (G : forall g, Group.stocks (fold_left Group.addStock sample g) = Group.stocks g ++ sample /\
                        Group.aar (fold_left Group.addStock sample g) = Group.aar g /\
                        Group.caar (fold_left Group.addStock sample g) = Group.caar g).
  { induction sample as [ | p sample IH]; intros g; simpl.
    - rewrite app_nil_r. auto.
    - destruct (IH (Group.addStock g p)) as (H1 & H2 & H3).
      rewrite H1, H2, H3. cbn [Group.addStock Group.stocks Group.aar Group.caar].
      rewrite <- app_assoc. auto. }
  destruct (G (Group.new groupName)) as (H1 & H2 & H3). auto.
Qed.

Lemma double_vector_nil : double_vector [].
Proof. unfold double_vector. simpl. vm_compute. discriminate. Qed.

Lemma tempCAAR_returns (groupName : string) (sample : list StockPtr) (k k' : nat)
    (v : list float) :
  StockAnalyzer.tempCAAR h (StockAnalyzer.tempGroup groupName sample) k = Returns (v, k') ->
  caar_like v.
Proof.
  unfold StockAnalyzer.tempCAAR, bind, lift, ret.
  destruct (Group.calculateAAR h _) as [g' | e] eqn:E; [ | discriminate].
  intros R. injection R as <- _.
  apply calculateAAR_returns in E. destruct E as (_ & _ & _ & Hv).
  destruct (tempGroup_fields groupName sample) as (_ & Ha & _).
  rewrite Ha in Hv. specialize (Hv double_vector_nil).
  cbn [Group.calculateCAAR Group.set_caar Group.caar]. split.
  - unfold double_vector in *. rewrite running_sum_length. exact Hv.
  - apply running_sum_not_neg_zero, zero_not_neg_zero.
Qed.

End AarFacts.

(** * [StockAnalyzer::performBootstrapping] *)

Section BootstrapFacts.
Variable rd : nat -> N.
Variable shuffle : N -> list StockPtr -> list StockPtr.

Lemma sampleStocks_returns (g : Group.t) (sampleSize : Z) (k : nat) :
  exists sample k', Group.sampleStocks rd shuffle g sampleSize k = Returns (sample, k').
Proof.
  unfold Group.sampleStocks.
  destruct (_ <=? _); eexists; eexists; reflexivity.
Qed.

Lemma iteration_returns (a : StockAnalyzer.t) (sampleSize : Z) (k k' : nat)
    (b m s : list float) :
  StockAnalyzer.iteration rd shuffle a sampleSize k = Returns ((b, m, s), k') ->
  caar_like b /\ caar_like m /\ caar_like s.
Proof.
  unfold StockAnalyzer.iteration. unfold bind at 1.
  destruct (sampleStocks_returns (StockAnalyzer.beatGroup a) sampleSize k) as (sb & k1 & ->).
  unfold bind at 1.
  destruct (sampleStocks_returns (StockAnalyzer.meetGroup a) sampleSize k1) as (sm & k2 & ->).
  unfold bind at 1.
  destruct (sampleStocks_returns (StockAnalyzer.missGroup a) sampleSize k2) as (ss & k3 & ->).
  cbv zeta. unfold bind at 1.
  destruct (StockAnalyzer.tempCAAR _ (StockAnalyzer.tempGroup "TempBeat" sb) k3)
    as [ [vb k4] | e] eqn:Eb; [ | discriminate].
  unfold bind at 1.
  destruct (StockAnalyzer.tempCAAR _ (StockAnalyzer.tempGroup "TempMeet" sm) k4)
    as [ [vm k5] | e] eqn:Em; [ | discriminate].
  unfold bind at 1.
  destruct (StockAnalyzer.tempCAAR _ (StockAnalyzer.tempGroup "TempMiss" ss) k5)
    as [ [vs k6] | e] eqn:Ems; [ | discriminate].
  unfold ret. intros R. injection R as <- <- <- _.
  apply tempCAAR_returns in Eb, Em, Ems. auto.
Qed.

(** One group's average over a single stored vector. *)
Lemma single_average (v : list float) :
  caar_like v ->
  let minSize := StockAnalyzer.min_size [v] in
  checked_resize sizeof_double minSize 0%float [] = Returns (repeat 0%float (length v)) /\
  StockAnalyzer.average 1 minSize [v] (repeat 0%float (length v)) = v.
Proof.
  intros [Hv Hz]. unfold double_vector in Hv.
  change (max_size sizeof_double) with 1152921504606846975 in Hv.
  assert (Hm : StockAnalyzer.min_size [v] = Z.of_nat (length v)).
  { unfold StockAnalyzer.min_size, SIZE_MAX. simpl. lia. }
  cbv zeta. rewrite Hm. split.
  - unfold checked_resize. change (max_size sizeof_double) with 1152921504606846975.
    destruct (Z.ltb_spec 1152921504606846975 (Z.of_nat (length v))); [lia | ].
    rewrite Nat2Z.id, resize_nil. reflexivity.
  - unfold StockAnalyzer.average, StockAnalyzer.sum_across. rewrite Nat2Z.id.
    cbn [fold_left]. rewrite (add_days_zeros v Hz).
    change (int_to_double 1) with 1%float. apply div_days_one.
Qed.

(** C8.  With one iteration the three averaged vectors are the CAAR
    vectors of that iteration's temporary groups: the minimum length is the
    vector's own, adding it onto zeros and dividing by 1.0 change no element;
    when the iteration throws, so does the run. *)
Theorem single_iteration_bootstrap (a : StockAnalyzer.t) (sampleSize : Z) (k : nat) :
  StockAnalyzer.performBootstrapping rd shuffle a sampleSize 1 k =
  StockAnalyzer.iteration rd shuffle a sampleSize k.
Proof.
  unfold StockAnalyzer.performBootstrapping.
  change (lift (checked_resize sizeof_vector (to_size_t 1) [] []))
    with (@ret (list (list float)) [ [] ]).
  unfold bind at 1, ret at 1. unfold bind at 1, ret at 1. unfold bind at 1, ret at 1.
  change (Z.to_nat 1) with 1%nat. cbn [StockAnalyzer.iterate assign].
  unfold bind at 1. unfold bind at 1.
  destruct (StockAnalyzer.iteration rd shuffle a sampleSize k)
    as [ [ [ [b m] s] k'] | e] eqn:E; [ | reflexivity].
  unfold ret at 1.
  apply iteration_returns in E. destruct E as (Hb & Hm & Hs).
  destruct (single_average b Hb) as [Rb Ab].
  destruct (single_average m Hm) as [Rm Am].
  destruct (single_average s Hs) as [Rs As].
  cbv zeta in *.
  unfold bind at 1. rewrite Rb. cbn [lift].
  unfold bind at 1. rewrite Rm. cbn [lift].
  unfold bind at 1. rewrite Rs. cbn [lift].
  unfold ret. rewrite Ab, Am, As. reflexivity.
Qed.

End BootstrapFacts.

(** * Non-positive arguments of the bootstrap *)

Section ArgumentFacts.
Variable rd : nat -> N.
Variable shuffle : N -> list StockPtr -> list StockPtr.

Lemma bind_cong {A B : Type} (m m' : M A) (f g : A -> M B) (k : nat) :
  m k = m' k -> (forall a k', f a k' = g a k') -> bind m f k = bind m' g k.
Proof.
  intros Hm Hf. unfold bind. rewrite Hm.
  destruct (m' k) as [ [a k'] | e]; [apply Hf | reflexivity].
Qed.

Lemma assign_repeat {A : Type} (i : nat) (x : A) (n : nat) :
  assign i x (repeat x n) = repeat x n.
Proof.
  revert i. induction n as [ | n IH]; intros [ | i]; simpl; try reflexivity.
  rewrite IH. reflexivity.
Qed.

Lemma min_size_empties (n : nat) :
  StockAnalyzer.min_size (repeat [] (S n)) = 0.
Proof.
  unfold StockAnalyzer.min_size. cbn [repeat fold_left length].
  change (Z.min SIZE_MAX (Z.of_nat 0)) with 0.
  induction n as [ | n IH]; [reflexivity | exact IH].
Qed.


Lemma tempCAAR_new (h : heap) (groupName : string) (k : nat) :
  StockAnalyzer.tempCAAR h (StockAnalyzer.tempGroup groupName []) k = Returns ([], k).
Proof. reflexivity. Qed.






Lemma vector_of_vectors (iterations : Z) (k : nat) :
  0 <= iterations <= INT_MAX ->
  lift (checked_resize sizeof_vector (to_size_t iterations) [] []) k
  = Returns (repeat (@nil float) (Z.to_nat iterations), k).
Proof.
  intros Hi. rewrite to_size_t_nonneg by exact Hi.
  unfold lift, checked_resize.
  change (max_size sizeof_vector) with 384307168202282325.
  unfold INT_MAX in Hi.
  destruct (Z.ltb_spec 384307168202282325 iterations); [lia | ].
  rewrite resize_nil. reflexivity.
Qed.


Lemma performBootstrapping_no_iterations (a : StockAnalyzer.t)
    (sampleSize iterations : Z) (k : nat) :
  is_int iterations -> iterations <= 0 ->
  StockAnalyzer.performBootstrapping rd shuffle a sampleSize iterations k
  = Throws length_error.
Proof.
  unfold is_int. intros Hi H0. unfold StockAnalyzer.performBootstrapping.
  destruct (Z.eq_dec iterations 0) as [-> | Hneg].
  - reflexivity.
  - unfold bind at 1.
    rewrite to_size_t_negative by lia.
    unfold lift, checked_resize.
    change (max_size sizeof_vector) with 384307168202282325.
    unfold INT_MIN in Hi.
    destruct (Z.ltb_spec 384307168202282325 (2 ^ 64 + iterations)); [reflexivity | lia].
Qed.


End ArgumentFacts.



(** * [Group::calculateAAR]: the first call and the later ones *)

Section FirstAggregation.
Variable h : heap.

Lemma SFadd_zero_r (x : spec_float) :
  x <> S754_zero true -> SF64add x (S754_zero false) = x.
Proof.
  destruct x as [ [ | ] | [ | ] | | ]; simpl; congruence.
Qed.

Lemma add_zero_r (x : float) : x <> neg_zero -> (x + 0)%float = x.
Proof.
  intros Hx. apply Prim2SF_inj. rewrite add_spec.
  change (Prim2SF 0) with (S754_zero false).
  apply SFadd_zero_r. rewrite neg_zero_spec. exact Hx.
Qed.

(** One member's pass over the accumulator, seen at day [d]. *)
Lemma add_days_nth (n : nat) (acc src : list float) (d : nat) (a : float) :
  (d < n)%nat -> nth_error acc d = Some a -> a <> neg_zero ->
  nth_error (add_days n acc src) d = Some (a + nth d src 0)%float.
Proof.
  revert acc src d. induction n as [ | n IH]; intros acc src d Hd Ha Hz; [lia | ].
  destruct acc as [ | a0 acc]; [destruct d; discriminate | ].
  destruct src as [ | x src].
  - cbn [add_days]. rewrite Ha. destruct d; cbn [nth]; rewrite add_zero_r; auto.
  - destruct d as [ | d]; cbn [add_days nth_error nth] in *.
    + injection Ha as ->. reflexivity.
    + apply IH; [lia | exact Ha | exact Hz].
Qed.

Lemma sum_members_nth (n : nat) (members : list StockPtr) (acc : list float)
    (d : nat) (a : float) :
  (d < n)%nat -> nth_error acc d = Some a -> a <> neg_zero ->
  nth_error (Group.sum_members h n members acc) d =
  Some (fold_left (fun acc stock => (acc + contribution h d stock)%float) members a).
Proof.
  unfold Group.sum_members. revert acc a.
  induction members as [ | p members IH]; intros acc a Hd Ha Hz; simpl; [exact Ha | ].
  apply IH; [exact Hd | | apply add_not_neg_zero, Hz].
  apply add_days_nth; assumption.
Qed.

Lemma div_days_nth (n : nat) (c : float) (v : list float) (d : nat) (x : float) :
  (d < n)%nat -> nth_error v d = Some x ->
  nth_error (div_days n c v) d = Some (x / c)%float.
Proof.
  revert v d. induction n as [ | n IH]; intros v d Hd Hx; [lia | ].
  destruct v as [ | y v]; [destruct d; discriminate | ].
  destruct d as [ | d]; cbn [div_days nth_error] in *.
  - injection Hx as ->. reflexivity.
  - apply IH; [lia | exact Hx].
Qed.

Lemma to_int_small (z : Z) : 0 <= z <= INT_MAX -> to_int z = z.
Proof.
  unfold to_int, INT_MAX. intros H. rewrite Z.mod_small; lia.
Qed.

(** X6.  The first aggregation of a group, whose [aar] is still empty:
    the result has the length of the first member's vector, and element [d]
    is the sum of the members' contributions on day [d] divided by the
    number of members. *)
Lemma calculateAAR_first_call (g : Group.t) (first : StockPtr) (rest : list StockPtr) :
  Group.stocks g = first :: rest ->
  Group.aar g = [] ->
  Z.of_nat (length (Stock.abnormalReturns (h first))) <= INT_MAX ->
  exists g',
    Group.calculateAAR h g = Returns g' /\
    Group.stocks g' = Group.stocks g /\
    length (Group.aar g') = length (Stock.abnormalReturns (h first)) /\
    forall d, (d < length (Stock.abnormalReturns (h first)))%nat ->
      nth_error (Group.aar g') d =
      Some (member_sum h (Group.stocks g) d
            / size_to_double (Z.of_nat (length (Group.stocks g))))%float.
Proof.
  intros Es Ea HN. unfold Group.calculateAAR. rewrite Es, Ea.
  set (N := length (Stock.abnormalReturns (h first))) in *.
  rewrite to_int_small, to_size_t_nonneg by lia.
  unfold checked_resize.
  change (max_size sizeof_double) with 1152921504606846975.
  unfold INT_MAX in HN.
  destruct (Z.ltb_spec 1152921504606846975 (Z.of_nat N)); [lia | ].
  rewrite Nat2Z.id, resize_nil.
  eexists. split; [reflexivity | ].
  cbn [Group.set_aar Group.stocks Group.aar]. split; [exact Es | split].
  - rewrite div_days_length, sum_members_length, repeat_length. reflexivity.
  - intros d Hd. apply div_days_nth; [exact Hd | ].
    rewrite <- Es. apply sum_members_nth; [exact Hd | | apply zero_not_neg_zero].
    apply nth_error_repeat, Hd.
Qed.

(** The second scenario of the specification, on a new group. *)
Lemma scenario_two_members :
  exists g',
    Group.calculateAAR Examples.scenario_heap Examples.two_members = Returns g' /\
    Group.aar g' = [0.02; 0.02]%float /\
    Group.caar (Group.calculateCAAR g') = [0.02; 0.04]%float.
Proof.
  eexists. split; [vm_compute; reflexivity | ]. split; reflexivity.
Qed.

End FirstAggregation.

Section Reaggregation.

(** C1 on the code.  [aar.resize(daysCount, 0.0)] keeps the elements that
    are already there, so a second [calculateAAR] adds the members' returns
    onto the averages of the first: with abnormal returns [1, 2] and [3, 2]
    the first call stores [2, 2] and the second [3, 3]; called twice,
    [calculateGroupMetrics] changes the stored AAR and CAAR the same way. *)
Theorem calculateAAR_twice_differs :
  (exists g1 g2,
     Group.calculateAAR Examples.small_heap Examples.two_members = Returns g1 /\
     Group.calculateAAR Examples.small_heap g1 = Returns g2 /\
     Group.stocks g1 = Group.stocks Examples.two_members /\
     Group.aar g1 = [2; 2]%float /\
     Group.aar g2 = [3; 3]%float /\
     Group.aar g2 <> Group.aar g1) /\
  (exists a1 a2,
     StockAnalyzer.calculateGroupMetrics Examples.analyzer = Returns a1 /\
     StockAnalyzer.calculateGroupMetrics a1 = Returns a2 /\
     Group.aar (StockAnalyzer.beatGroup a1) = [2; 2]%float /\
     Group.aar (StockAnalyzer.beatGroup a2) = [3; 3]%float /\
     Group.caar (StockAnalyzer.beatGroup a1) = [2; 4]%float /\
     Group.caar (StockAnalyzer.beatGroup a2) = [3; 6]%float).
Proof.
  split.
  - eexists. eexists. split; [vm_compute; reflexivity | ].
    split; [vm_compute; reflexivity | ].
    cbn [Group.stocks Group.aar].
    repeat split.
    intros H.
    apply (f_equal (fun v => match v with x :: _ => PrimFloat.ltb x 2.5 | [] => false end)) in H.
    vm_compute in H. discriminate H.
  - eexists. eexists. split; [vm_compute; reflexivity | ].
    split; [vm_compute; reflexivity | ].
    repeat split.
Qed.

(** C2 on the code.  The first [calculateAAR] on the group of the second
    scenario stores [0.02, 0.02]; a further call on that group stores
    (0.02 + 0.01 + 0.03) / 2 on day 0, where the sum of the contributions
    divided by the member count is 0.02. *)
Theorem calculateAAR_stale_average :
  exists g',
    Group.calculateAAR Examples.scenario_heap Examples.two_members
    = Returns Examples.aggregated /\
    Group.calculateAAR Examples.scenario_heap Examples.aggregated = Returns g' /\
    Group.stocks g' = Group.stocks Examples.aggregated /\
    (member_sum Examples.scenario_heap (Group.stocks Examples.aggregated) 0
     / size_to_double (Z.of_nat (length (Group.stocks Examples.aggregated))))%float
    = 0.02%float /\
    nth_error (Group.aar g') 0 = Some ((0.02 + 0.01 + 0.03) / 2)%float /\
    nth_error (Group.aar g') 0 <> Some 0.02%float.
Proof.
  eexists. split; [vm_compute; reflexivity | ].
  split; [vm_compute; reflexivity | ].
  cbn [Group.stocks Group.aar Examples.aggregated].
  split; [reflexivity | ]. split; [vm_compute; reflexivity | ].
  split; [vm_compute; reflexivity | ].
  intros H.
  apply (f_equal (fun o => match o with Some x => PrimFloat.ltb x 0.025 | None => false end)) in H.
  vm_compute in H. discriminate H.
Qed.

End Reaggregation.

(** * Further facts on binary64 arithmetic *)

Section MoreBinary64.

Lemma nan_spec (x : float) : Prim2SF x = S754_nan <-> x = nan.
Proof.
  split; intros H.
  - apply Prim2SF_inj. rewrite H. reflexivity.
  - rewrite H. reflexivity.
Qed.

Lemma infinity_spec (x : float) (s : bool) :
  Prim2SF x = S754_infinity s -> x = if s then neg_infinity else infinity.
Proof.
  intros H. apply Prim2SF_inj. rewrite H. destruct s; reflexivity.
Qed.

Lemma zero_spec (x : float) : Prim2SF x = S754_zero false <-> x = 0%float.
Proof.
  split; intros H.
  - apply Prim2SF_inj. rewrite H. reflexivity.
  - rewrite H. reflexivity.
Qed.

(** [x == 0] holds of the two zeros only. *)
Lemma eqb_zero (x : float) :
  (x =? 0)%float = true <-> exists s, Prim2SF x = S754_zero s.
Proof.
  rewrite FloatAxioms.eqb_spec. change (Prim2SF 0) with (S754_zero false).
  destruct (Prim2SF x) as [s | s | | s m e]; unfold SFeqb, SFcompare.
  - split; [intros _; exists s; reflexivity | reflexivity].
  - split; [destruct s; discriminate | intros [s' H]; discriminate H].
  - split; [discriminate | intros [s' H]; discriminate H].
  - split; [destruct s; discriminate | intros [s' H]; discriminate H].
Qed.

(** A finite double in the sense of [finite] is a zero or a finite number
    of [SpecFloat]. *)
Lemma finite_spec (x : float) :
  finite x ->
  (exists s, Prim2SF x = S754_zero s) \/ (exists s m e, Prim2SF x = S754_finite s m e).
Proof.
  intros (Hn & Hp & Hm).
  destruct (Prim2SF x) as [s | s | | s m e] eqn:E.
  - left. exists s. reflexivity.
  - apply infinity_spec in E. destruct s; contradiction.
  - apply nan_spec in E. contradiction.
  - right. exists s, m, e. reflexivity.
Qed.

(** [x - x] is +0.0 for every finite [x], and NaN otherwise. *)
Lemma SFsub_diag (x : spec_float) :
  SF64sub x x = match x with
                | S754_zero _ | S754_finite _ _ _ => S754_zero false
                | _ => S754_nan
                end.
Proof.
  destruct x as [ [ | ] | [ | ] | | s m e]; try reflexivity.
  unfold SF64sub, SFsub. binint. rewrite Z.sub_diag. reflexivity.
Qed.

Lemma sub_diag_finite (x : float) : finite x -> (x - x)%float = 0%float.
Proof.
  intros Hx. apply zero_spec. rewrite sub_spec, SFsub_diag.
  destruct (finite_spec x Hx) as [ [s ->] | (s & m & e & ->)]; reflexivity.
Qed.

Lemma sub_diag_not_finite (x : float) : not_finite x -> (x - x)%float = nan.
Proof. intros [-> | [-> | ->] ]; reflexivity. Qed.

Lemma sub_diag_cases (x : float) : (x - x)%float = 0%float \/ (x - x)%float = nan.
Proof.
  destruct (Prim2SF x) as [s | s | | s m e] eqn:E.
  - left. apply zero_spec. rewrite sub_spec, SFsub_diag, E. reflexivity.
  - right. apply nan_spec. rewrite sub_spec, SFsub_diag, E. reflexivity.
  - right. apply nan_spec. rewrite sub_spec, SFsub_diag, E. reflexivity.
  - left. apply zero_spec. rewrite sub_spec, SFsub_diag, E. reflexivity.
Qed.

(** Dividing by a zero never gives a finite number: [(p - z) / z] is an
    infinity or a NaN when [z] is a zero. *)
Lemma SF_change_over_zero (x : spec_float) (s : bool) :
  match SF64div (SF64sub x (S754_zero s)) (S754_zero s) with
  | S754_nan | S754_infinity _ => True
  | _ => False
  end.
Proof.
  destruct x as [ [ | ] | [ | ] | | sx m e], s; exact I.
Qed.

Lemma change_over_zero (p z : float) :
  (z =? 0)%float = true -> not_finite ((p - z) / z)%float.
Proof.
  intros Hz. apply eqb_zero in Hz. destruct Hz as [s Hz].
  pose proof (SF_change_over_zero (Prim2SF p) s) as H.
  rewrite <- Hz, <- sub_spec, <- div_spec in H.
  unfold not_finite.
  destruct (Prim2SF ((p - z) / z)%float) as [s' | s' | | s' m e] eqn:E;
    try contradiction.
  - apply infinity_spec in E. destruct s'; auto.
  - apply nan_spec in E. auto.
Qed.

End MoreBinary64.

(** * [Stock::calculateReturns] and [MarketData::calculateMarketReturns] *)

Section ReturnFacts.

Lemma returns_from_length (prev : float) (rest : list float) :
  length (Stock.returns_from prev rest) = length rest.
Proof.
  revert prev. induction rest as [ | p rest IH]; intros prev; simpl; [reflexivity | ].
  rewrite IH. reflexivity.
Qed.

Lemma daily_returns_length (ps : list float) :
  length (Stock.daily_returns ps) = (length ps - 1)%nat.
Proof.
  destruct ps as [ | p0 rest]; simpl; [reflexivity | ].
  rewrite returns_from_length. lia.
Qed.

Lemma returns_from_nth (prev : float) (rest : list float) (i : nat) (a b : float) :
  nth_error (prev :: rest) i = Some a -> nth_error rest i = Some b ->
  nth_error (Stock.returns_from prev rest) i = Some ((b - a) / a)%float.
Proof.
  revert prev i. induction rest as [ | p rest IH]; intros prev i Ha Hb.
  - destruct i; discriminate Hb.
  - destruct i as [ | i]; cbn [Stock.returns_from nth_error] in *.
    + injection Ha as ->. injection Hb as ->. reflexivity.
    + apply IH; assumption.
Qed.

Lemma daily_returns_nth (ps : list float) (i : nat) (a b : float) :
  nth_error ps i = Some a -> nth_error ps (S i) = Some b ->
  nth_error (Stock.daily_returns ps) i = Some ((b - a) / a)%float.
Proof.
  destruct ps as [ | p0 rest]; [destruct i; discriminate | ].
  cbn [Stock.daily_returns nth_error]. apply returns_from_nth.
Qed.

(** X1.  [calculateReturns] stores one return per pair of consecutive
    prices, [(prices[i+1] - prices[i]) / prices[i]], so none for fewer than
    two prices; it leaves the prices and the abnormal returns as they were. *)
Theorem calculateReturns_pairs (s : Stock.t) :
  let s' := Stock.calculateReturns s in
  length (Stock.returns s') = (length (Stock.prices s) - 1)%nat /\
  (forall i a b,
      nth_error (Stock.prices s) i = Some a ->
      nth_error (Stock.prices s) (S i) = Some b ->
      nth_error (Stock.returns s') i = Some ((b - a) / a)%float) /\
  Stock.prices s' = Stock.prices s /\
  Stock.abnormalReturns s' = Stock.abnormalReturns s.
Proof.
  cbn [Stock.calculateReturns Stock.returns Stock.prices Stock.abnormalReturns].
  split; [apply daily_returns_length | split; [ | split; reflexivity] ].
  intros i a b. apply daily_returns_nth.
Qed.

(** X2.  A price that compares equal to 0 is not an error: the return of
    the day after it is an infinity or a NaN. *)
Theorem calculateReturns_zero_price (s : Stock.t) (i : nat) (z p : float) :
  nth_error (Stock.prices s) i = Some z ->
  nth_error (Stock.prices s) (S i) = Some p ->
  (z =? 0)%float = true ->
  exists r,
    nth_error (Stock.returns (Stock.calculateReturns s)) i = Some r /\
    not_finite r.
Proof.
  intros Hz Hp H0. exists ((p - z) / z)%float. split.
  - cbn [Stock.calculateReturns Stock.returns]. apply daily_returns_nth; assumption.
  - apply change_over_zero, H0.
Qed.

Lemma market_returns_from (prev : float) (rest : list float) :
  MarketData.returns_from prev rest = Stock.returns_from prev rest.
Proof.
  revert prev. induction rest as [ | p rest IH]; intros prev; simpl; [reflexivity | ].
  rewrite IH. reflexivity.
Qed.

Lemma market_returns_daily (ps : list float) :
  MarketData.calculateMarketReturns ps = Stock.daily_returns ps.
Proof.
  destruct ps as [ | p0 rest]; [reflexivity | apply market_returns_from].
Qed.

Lemma abnormal_loop_diag (rs : list float) (i : nat) (v : float) :
  nth_error (Stock.abnormal_loop rs rs) i = Some v ->
  exists r, nth_error rs i = Some r /\ v = (r - r)%float.
Proof.
  revert i. induction rs as [ | r rs IH]; intros i H.
  - destruct i; discriminate H.
  - destruct i as [ | i]; cbn [Stock.abnormal_loop nth_error] in *.
    + injection H as <-. exists r. split; reflexivity.
    + apply IH, H.
Qed.

(** X3.  A stock whose prices are the market's own has no abnormal return:
    against the market returns computed from the same prices, every
    abnormal return is +0.0 where the return is finite and NaN where it is
    not, one per pair of consecutive prices. *)
Theorem market_against_itself (s : Stock.t) (marketPrices : list float) :
  Stock.prices s = marketPrices ->
  let s' :=
    Stock.calculateAbnormalReturns (Stock.calculateReturns s)
      (MarketData.calculateMarketReturns marketPrices) in
  length (Stock.abnormalReturns s') = (length marketPrices - 1)%nat /\
  (forall i v,
      nth_error (Stock.abnormalReturns s') i = Some v ->
      exists r,
        nth_error (Stock.returns s') i = Some r /\
        (v = 0%float \/ v = nan) /\
        (finite r -> v = 0%float) /\
        (not_finite r -> v = nan)).
Proof.
  intros <-. rewrite market_returns_daily.
  cbn [Stock.calculateAbnormalReturns Stock.calculateReturns Stock.abnormalReturns
       Stock.returns].
  split.
  - rewrite abnormal_loop_length, Nat.min_id. apply daily_returns_length.
  - intros i v H. apply abnormal_loop_diag in H. destruct H as (r & Hr & ->).
    exists r. split; [exact Hr | split; [ | split] ].
    + apply sub_diag_cases.
    + apply sub_diag_finite.
    + apply sub_diag_not_finite.
Qed.

End ReturnFacts.

(** * More on the classifier *)

Section MeetFacts.

(** The surprise of an actual EPS equal to the estimate, as [SpecFloat]
    computes it: +0.0 or NaN. *)
Lemma SF_surprise_diag (x : spec_float) :
  let v := SF64mul (SF64div (SF64sub x x) (SFabs x))
             (S754_finite false 7036874417766400 (-46)) in
  v = S754_zero false \/ v = S754_nan.
Proof.
  rewrite SFsub_diag.
  destruct x as [ [ | ] | [ | ] | | s m e]; cbv zeta; auto.
Qed.

Lemma surprise_diag (e : float) :
  surprisePercentage e e = 0%float \/ surprisePercentage e e = nan.
Proof.
  rewrite surprise_double.
  destruct (e =? 0)%float; [left; reflexivity | ].
  pose proof (SF_surprise_diag (Prim2SF e)) as H. cbv zeta in H.
  change (S754_finite false 7036874417766400 (-46)) with (Prim2SF 100) in H.
  rewrite <- sub_spec, <- abs_spec, <- div_spec, <- mul_spec in H.
  destruct H as [H | H]; [left; apply zero_spec, H | right; apply nan_spec, H].
Qed.

(** X4.  A stock whose actual EPS is its estimate is classified Meet,
    whatever the value: finite, zero, infinite or NaN. *)
Theorem actual_equal_estimate_meets (s : Stock.t) :
  Stock.actualEPS s = Stock.epsEstimate s ->
  Stock.getGroup s = "Meet"%string.
Proof.
  intros H. unfold Stock.getGroup. rewrite H, classify_double. cbv zeta.
  destruct (surprise_diag (Stock.epsEstimate s)) as [-> | ->]; reflexivity.
Qed.

End MeetFacts.

(** * More on [Group::calculateAAR] and [StockAnalyzer::calculateGroupMetrics] *)

Section AggregationFacts.
Variable h : heap.

(** X5.  On a group without members [calculateAAR] changes nothing.  On a
    group with members whose first member has at most [INT_MAX] abnormal
    returns it returns, [aar] has the length of that member's vector
    whatever it held before, and the members, the name and [caar] are as
    they were: [caar] is not brought up to date. *)
Theorem calculateAAR_shape (g : Group.t) :
  (Group.stocks g = [] -> Group.calculateAAR h g = Returns g) /\
  (forall first rest,
      Group.stocks g = first :: rest ->
      Z.of_nat (length (Stock.abnormalReturns (h first))) <= INT_MAX ->
      exists g',
        Group.calculateAAR h g = Returns g' /\
        length (Group.aar g') = length (Stock.abnormalReturns (h first)) /\
        Group.stocks g' = Group.stocks g /\
        Group.caar g' = Group.caar g /\
        Group.name g' = Group.name g).
Proof.
  split.
  - intros E. unfold Group.calculateAAR. rewrite E. reflexivity.
  - intros first rest Es HN. unfold Group.calculateAAR. rewrite Es.
    rewrite to_int_small, to_size_t_nonneg by lia.
    unfold checked_resize.
    change (max_size sizeof_double) with 1152921504606846975.
    unfold INT_MAX in HN.
    destruct (Z.ltb_spec 1152921504606846975
                (Z.of_nat (length (Stock.abnormalReturns (h first))))); [lia | ].
    eexists. split; [reflexivity | ].
    cbn [Group.set_aar Group.stocks Group.aar Group.caar Group.name].
    rewrite div_days_length, sum_members_length, resize_length, Nat2Z.id.
    repeat split. exact Es.
Qed.

(** X7.  On a group with one member and an empty [aar], where the member
    has at most [INT_MAX] abnormal returns and none of them is -0.0,
    [calculateAAR] returns and stores that member's abnormal returns as
    the AAR. *)
Theorem single_member_aar (g : Group.t) (p : StockPtr) :
  Group.stocks g = [p] ->
  Group.aar g = [] ->
  Z.of_nat (length (Stock.abnormalReturns (h p))) <= INT_MAX ->
  Forall (fun x => x <> neg_zero) (Stock.abnormalReturns (h p)) ->
  Group.calculateAAR h g = Returns (Group.set_aar g (Stock.abnormalReturns (h p))).
Proof.
  intros Es Ea HN Hz. unfold Group.calculateAAR. rewrite Es, Ea.
  rewrite to_int_small, to_size_t_nonneg by lia.
  unfold checked_resize.
  change (max_size sizeof_double) with 1152921504606846975.
  unfold INT_MAX in HN.
  destruct (Z.ltb_spec 1152921504606846975
              (Z.of_nat (length (Stock.abnormalReturns (h p))))); [lia | ].
  rewrite Nat2Z.id, resize_nil.
  unfold Group.sum_members. cbn [fold_left length].
  rewrite (add_days_zeros _ Hz).
  change (size_to_double (Z.of_nat 1)) with 1%float.
  rewrite div_days_one. reflexivity.
Qed.

End AggregationFacts.

Section MetricsFacts.

Lemma calculateCAAR_fields (g : Group.t) :
  let g' := Group.calculateCAAR g in
  Group.stocks g' = Group.stocks g /\
  Group.aar g' = Group.aar g /\
  length (Group.caar g') = length (Group.aar g') /\
  forall d, (d < length (Group.aar g'))%nat ->
    nth_error (Group.caar g') d = Some (prefix_sum (Group.aar g') d).
Proof.
  cbn [Group.calculateCAAR Group.set_caar Group.stocks Group.aar Group.caar].
  repeat split.
  - apply running_sum_length.
  - intros d Hd. apply running_sum_nth, Hd.
Qed.

Lemma aggregated_from_calculate (h : heap) (g g1 : Group.t) :
  Group.calculateAAR h g = Returns g1 ->
  aggregated_from g (Group.calculateCAAR g1).
Proof.
  intros E. apply calculateAAR_returns in E. destruct E as (Es & _ & En & _).
  destruct (calculateCAAR_fields g1) as (H1 & H2 & H3 & H4).
  unfold aggregated_from. rewrite H1, Es.
  change (Group.name (Group.calculateCAAR g1)) with (Group.name g1). auto.
Qed.

(** X8.  When [calculateGroupMetrics] returns, the table of stocks and the
    members and the names of the three groups are as before, and in each
    group [caar] is as long as [aar] and holds its running sums. *)
Theorem calculateGroupMetrics_invariant (a a' : StockAnalyzer.t) :
  StockAnalyzer.calculateGroupMetrics a = Returns a' ->
  StockAnalyzer.stocksMap a' = StockAnalyzer.stocksMap a /\
  aggregated_from (StockAnalyzer.beatGroup a) (StockAnalyzer.beatGroup a') /\
  aggregated_from (StockAnalyzer.meetGroup a) (StockAnalyzer.meetGroup a') /\
  aggregated_from (StockAnalyzer.missGroup a) (StockAnalyzer.missGroup a').
Proof.
  unfold StockAnalyzer.calculateGroupMetrics.
  destruct (Group.calculateAAR _ (StockAnalyzer.beatGroup a)) as [b | e] eqn:Eb;
    [ | discriminate].
  destruct (Group.calculateAAR _ (StockAnalyzer.meetGroup a)) as [m | e] eqn:Em;
    [ | discriminate].
  destruct (Group.calculateAAR _ (StockAnalyzer.missGroup a)) as [s | e] eqn:Es;
    [ | discriminate].
  intros E. injection E as <-.
  cbn [StockAnalyzer.stocksMap StockAnalyzer.beatGroup StockAnalyzer.meetGroup
       StockAnalyzer.missGroup].
  split; [reflexivity | ].
  repeat split; eapply aggregated_from_calculate; eassumption.
Qed.

End MetricsFacts.

(** * Sampling below the group size *)

Section DrawFacts.
Variable rd : nat -> N.
Variable shuffle : N -> list StockPtr -> list StockPtr.
(** What [std::shuffle] guarantees: the range is permuted. *)
Hypothesis shuffle_permutes : forall seed v, Permutation (shuffle seed v) v.

(** X9.  For a sample size from 0 up to, but not at, the number of members,
    [sampleStocks] builds one random device and returns the first
    [sampleSize] elements of the shuffled member vector: that many entries,
    each one a member, none drawn more often than the group holds it. *)
Theorem sample_below_size (g : Group.t) (sampleSize : Z) (k : nat) :
  is_int sampleSize ->
  0 <= sampleSize < Z.of_nat (length (Group.stocks g)) ->
  exists sample,
    Group.sampleStocks rd shuffle g sampleSize k = Returns (sample, S k) /\
    sample = firstn (Z.to_nat sampleSize) (shuffle (rd k) (Group.stocks g)) /\
    Z.of_nat (length sample) = sampleSize /\
    (forall p, (count_occ N.eq_dec sample p <= count_occ N.eq_dec (Group.stocks g) p)%nat) /\
    incl sample (Group.stocks g) /\
    (NoDup (Group.stocks g) -> NoDup sample).
Proof.
  intros Hi Hs. unfold is_int in Hi.
  exists (firstn (Z.to_nat sampleSize) (shuffle (rd k) (Group.stocks g))).
  split.
  { unfold Group.sampleStocks. rewrite to_size_t_nonneg by lia.
    destruct (Z.leb_spec (Z.of_nat (length (Group.stocks g))) sampleSize); [lia | ].
    reflexivity. }
  split; [reflexivity | ].
  pose proof (shuffle_permutes (rd k) (Group.stocks g)) as Hp.
  revert Hp. generalize (shuffle (rd k) (Group.stocks g)). intros v Hp.
  pose proof (firstn_skipn (Z.to_nat sampleSize) v) as Hd.
  split; [ | split; [ | split] ].
  - rewrite length_firstn, (Permutation_length Hp). lia.
  - intros p.
    rewrite <- (proj1 (Permutation_count_occ N.eq_dec _ _) Hp p).
    rewrite <- Hd at 2. rewrite count_occ_app. apply Nat.le_add_r.
  - intros p Hin. apply (Permutation_in p Hp). rewrite <- Hd.
    apply in_or_app. left. exact Hin.
  - intros Hn. apply (Permutation_NoDup (Permutation_sym Hp)) in Hn.
    rewrite <- Hd in Hn. apply NoDup_app_remove_r in Hn. exact Hn.
Qed.

End DrawFacts.

(** * The bootstrap over whole groups and over empty groups *)

Section RunFacts.

(** The outcome of the loop body, read back from its result. *)
Lemma iteration_inversion (rd : nat -> N) (shuffle : N -> list StockPtr -> list StockPtr)
    (a : StockAnalyzer.t) (sampleSize : Z) (k k' : nat) (b m s : list float) :
  StockAnalyzer.iteration rd shuffle a sampleSize k = Returns ((b, m, s), k') ->
  exists sb k1 sm k2 ss,
    Group.sampleStocks rd shuffle (StockAnalyzer.beatGroup a) sampleSize k
      = Returns (sb, k1) /\
    Group.sampleStocks rd shuffle (StockAnalyzer.meetGroup a) sampleSize k1
      = Returns (sm, k2) /\
    Group.sampleStocks rd shuffle (StockAnalyzer.missGroup a) sampleSize k2
      = Returns (ss, k') /\
    StockAnalyzer.tempCAAR (StockAnalyzer.stocksMap a)
      (StockAnalyzer.tempGroup "TempBeat" sb) k' = Returns (b, k') /\
    StockAnalyzer.tempCAAR (StockAnalyzer.stocksMap a)
      (StockAnalyzer.tempGroup "TempMeet" sm) k' = Returns (m, k') /\
    StockAnalyzer.tempCAAR (StockAnalyzer.stocksMap a)
      (StockAnalyzer.tempGroup "TempMiss" ss) k' = Returns (s, k').
Proof.
  assert (T : forall h g j v j',
             StockAnalyzer.tempCAAR h g j = Returns (v, j') ->
             j' = j /\ forall i, StockAnalyzer.tempCAAR h g i = Returns (v, i)).
  { intros h g j v j'. unfold StockAnalyzer.tempCAAR, bind, lift, ret.
    destruct (Group.calculateAAR h g); [ | discriminate].
    intros E. injection E as <- <-. split; reflexivity. }
  unfold StockAnalyzer.iteration. unfold bind at 1.
  destruct (sampleStocks_returns rd shuffle (StockAnalyzer.beatGroup a) sampleSize k)
    as (sb & k1 & E1). rewrite E1.
  unfold bind at 1.
  destruct (sampleStocks_returns rd shuffle (StockAnalyzer.meetGroup a) sampleSize k1)
    as (sm & k2 & E2). rewrite E2.
  unfold bind at 1.
  destruct (sampleStocks_returns rd shuffle (StockAnalyzer.missGroup a) sampleSize k2)
    as (ss & k3 & E3). rewrite E3.
  cbv zeta. unfold bind at 1.
  destruct (StockAnalyzer.tempCAAR _ (StockAnalyzer.tempGroup "TempBeat" sb) k3)
    as [ [vb k4] | e] eqn:Eb; [ | discriminate].
  unfold bind at 1.
  destruct (StockAnalyzer.tempCAAR _ (StockAnalyzer.tempGroup "TempMeet" sm) k4)
    as [ [vm k5] | e] eqn:Em; [ | discriminate].
  unfold bind at 1.
  destruct (StockAnalyzer.tempCAAR _ (StockAnalyzer.tempGroup "TempMiss" ss) k5)
    as [ [vs k6] | e] eqn:Ems; [ | discriminate].
  unfold ret. intros R. injection R as <- <- <- <-.
  apply T in Eb, Em, Ems.
  destruct Eb as [-> Eb], Em as [-> Em], Ems as [-> Ems].
  exists sb, k1, sm, k2, ss. repeat split; auto.
Qed.

(** A property of the stored vectors that every round of the loop keeps. *)
Lemma iterate_invariant (rd : nat -> N) (shuffle : N -> list StockPtr -> list StockPtr)
    (a : StockAnalyzer.t) (sampleSize : Z)
    (P : StockAnalyzer.curves -> Prop)
    (Q : list (list float) * list (list float) * list (list float) -> Prop) :
  (forall k r k',
      StockAnalyzer.iteration rd shuffle a sampleSize k = Returns (r, k') -> P r) ->
  (forall i b m s B M S,
      P (b, m, s) -> Q (B, M, S) -> Q (assign i b B, assign i m M, assign i s S)) ->
  forall n i B M S k R k',
    Q (B, M, S) ->
    StockAnalyzer.iterate rd shuffle a sampleSize n i B M S k = Returns (R, k') ->
    Q R.
Proof.
  intros HP HQ. induction n as [ | n IH]; intros i B M S k R k' H0 E.
  - cbn [StockAnalyzer.iterate] in E. unfold ret in E. injection E as <- _. exact H0.
  - cbn [StockAnalyzer.iterate] in E. unfold bind in E.
    destruct (StockAnalyzer.iteration rd shuffle a sampleSize k)
      as [ [ [ [b m] s] k1] | e] eqn:Ei; [ | discriminate E].
    apply (IH _ _ _ _ _ _ _ (HQ i b m s B M S (HP _ _ _ Ei) H0) E).
Qed.

(** The loop builds no random device when its body builds none. *)
Lemma iterate_counter (rd : nat -> N) (shuffle : N -> list StockPtr -> list StockPtr)
    (a : StockAnalyzer.t) (sampleSize : Z) :
  (forall k r k',
      StockAnalyzer.iteration rd shuffle a sampleSize k = Returns (r, k') -> k' = k) ->
  forall n i B M S k R k',
    StockAnalyzer.iterate rd shuffle a sampleSize n i B M S k = Returns (R, k') ->
    k' = k.
Proof.
  intros H. induction n as [ | n IH]; intros i B M S k R k' E.
  - cbn [StockAnalyzer.iterate] in E. unfold ret in E. injection E as _ <-. reflexivity.
  - cbn [StockAnalyzer.iterate] in E. unfold bind in E.
    destruct (StockAnalyzer.iteration rd shuffle a sampleSize k)
      as [ [ [ [b m] s] k1] | e] eqn:Ei; [ | discriminate E].
    apply H in Ei. subst k1. apply (IH _ _ _ _ _ _ _ E).
Qed.

(** The loop under two random devices whose bodies agree. *)
Lemma iterate_agree (rd rd' : nat -> N)
    (shuffle shuffle' : N -> list StockPtr -> list StockPtr)
    (a : StockAnalyzer.t) (sampleSize : Z) :
  (forall k, StockAnalyzer.iteration rd shuffle a sampleSize k
             = StockAnalyzer.iteration rd' shuffle' a sampleSize k) ->
  forall n i B M S k,
    StockAnalyzer.iterate rd shuffle a sampleSize n i B M S k
    = StockAnalyzer.iterate rd' shuffle' a sampleSize n i B M S k.
Proof.
  intros H. induction n as [ | n IH]; intros i B M S k; [reflexivity | ].
  cbn [StockAnalyzer.iterate]. unfold bind. rewrite H.
  destruct (StockAnalyzer.iteration rd' shuffle' a sampleSize k)
    as [ [ [ [b m] s] k'] | e]; [apply IH | reflexivity].
Qed.

Lemma tempCAAR_counter (h : heap) (g : Group.t) (j j' : nat) (v : list float) :
  StockAnalyzer.tempCAAR h g j = Returns (v, j') ->
  forall i, StockAnalyzer.tempCAAR h g i = Returns (v, i).
Proof.
  unfold StockAnalyzer.tempCAAR, bind, lift, ret.
  destruct (Group.calculateAAR h g); [ | discriminate].
  intros E. injection E as <- _. reflexivity.
Qed.

(** An iteration whose samples are the whole groups. *)
Lemma whole_iteration (rd : nat -> N) (shuffle : N -> list StockPtr -> list StockPtr)
    (a : StockAnalyzer.t) (sampleSize : Z) (k k1 : nat) (b m s : list float) :
  is_int sampleSize -> covers a sampleSize ->
  StockAnalyzer.iteration rd shuffle a sampleSize k = Returns ((b, m, s), k1) ->
  (forall j, StockAnalyzer.iteration rd shuffle a sampleSize j = Returns ((b, m, s), j)) /\
  whole_group_caar (StockAnalyzer.stocksMap a) "TempBeat" (StockAnalyzer.beatGroup a)
    = Returns b /\
  whole_group_caar (StockAnalyzer.stocksMap a) "TempMeet" (StockAnalyzer.meetGroup a)
    = Returns m /\
  whole_group_caar (StockAnalyzer.stocksMap a) "TempMiss" (StockAnalyzer.missGroup a)
    = Returns s.
Proof.
  intros Hi (Cb & Cm & Cs) E.
  apply iteration_inversion in E.
  destruct E as (sb & k2 & sm & k3 & ss & E1 & E2 & E3 & Tb & Tm & Ts).
  rewrite sampleStocks_all in E1, E2, E3 by assumption.
  injection E1 as <- _. injection E2 as <- _. injection E3 as <- _.
  pose proof (tempCAAR_counter _ _ _ _ _ Tb) as Ab.
  pose proof (tempCAAR_counter _ _ _ _ _ Tm) as Am.
  pose proof (tempCAAR_counter _ _ _ _ _ Ts) as As.
  split.
  - intros j. unfold StockAnalyzer.iteration.
    unfold bind at 1. rewrite sampleStocks_all by assumption.
    unfold bind at 1. rewrite sampleStocks_all by assumption.
    unfold bind at 1. rewrite sampleStocks_all by assumption.
    cbv zeta. unfold bind at 1. rewrite Ab. unfold bind at 1. rewrite Am.
    unfold bind at 1. rewrite As. reflexivity.
  - unfold whole_group_caar. rewrite Ab, Am, As. repeat split.
Qed.

Lemma assign_app_repeat {A : Type} (i : nat) (b x : A) (rest : list A) :
  assign i b (repeat b i ++ x :: rest) = repeat b (S i) ++ rest.
Proof.
  induction i as [ | i IH]; [reflexivity | ].
  cbn [repeat app assign]. rewrite IH. reflexivity.
Qed.

(** The loop over a body that returns the same vectors in every round
    stores them at every index. *)
Lemma iterate_constant (rd : nat -> N) (shuffle : N -> list StockPtr -> list StockPtr)
    (a : StockAnalyzer.t) (sampleSize : Z) (b m s : list float) :
  (forall j, StockAnalyzer.iteration rd shuffle a sampleSize j = Returns ((b, m, s), j)) ->
  forall n i k,
    StockAnalyzer.iterate rd shuffle a sampleSize n i
      (repeat b i ++ repeat [] n) (repeat m i ++ repeat [] n) (repeat s i ++ repeat [] n) k
    = Returns ((repeat b (i + n), repeat m (i + n), repeat s (i + n)), k).
Proof.
  intros H. induction n as [ | n IH]; intros i k.
  - cbn [StockAnalyzer.iterate repeat]. rewrite !app_nil_r, Nat.add_0_r. reflexivity.
  - cbn [StockAnalyzer.iterate repeat]. unfold bind. rewrite H.
    rewrite !assign_app_repeat, IH.
    replace (S i + n)%nat with (i + S n)%nat by lia. reflexivity.
Qed.

Lemma min_size_copies (v : list float) (n : nat) :
  double_vector v -> StockAnalyzer.min_size (repeat v (S n)) = Z.of_nat (length v).
Proof.
  unfold double_vector. change (max_size sizeof_double) with 1152921504606846975.
  intros Hv. unfold StockAnalyzer.min_size. cbn [repeat fold_left].
  replace (Z.min SIZE_MAX (Z.of_nat (length v))) with (Z.of_nat (length v))
    by (unfold SIZE_MAX; lia).
  induction n as [ | n IH]; [reflexivity | ].
  cbn [repeat fold_left]. rewrite Z.min_id. exact IH.
Qed.

(** X10.  With a sample size at or above the size of every group, the run
    does not depend on the random device or on the shuffle and builds no
    random device, and every iteration aggregates the three whole groups:
    a run that returns gives, for each group, the average of [iterations]
    copies of the CAAR of a temporary group holding all its members. *)
Theorem bootstrap_whole_groups (rd rd' : nat -> N)
    (shuffle shuffle' : N -> list StockPtr -> list StockPtr)
    (a : StockAnalyzer.t) (sampleSize iterations : Z) (k : nat) :
  is_int sampleSize -> covers a sampleSize ->
  StockAnalyzer.performBootstrapping rd shuffle a sampleSize iterations k
  = StockAnalyzer.performBootstrapping rd' shuffle' a sampleSize iterations k /\
  (forall c k',
      StockAnalyzer.performBootstrapping rd shuffle a sampleSize iterations k
      = Returns (c, k') ->
      k' = k /\
      (is_int iterations ->
       exists beatCAAR meetCAAR missCAAR,
         whole_group_caar (StockAnalyzer.stocksMap a) "TempBeat" (StockAnalyzer.beatGroup a)
           = Returns beatCAAR /\
         whole_group_caar (StockAnalyzer.stocksMap a) "TempMeet" (StockAnalyzer.meetGroup a)
           = Returns meetCAAR /\
         whole_group_caar (StockAnalyzer.stocksMap a) "TempMiss" (StockAnalyzer.missGroup a)
           = Returns missCAAR /\
         c = (copies_average iterations beatCAAR,
              copies_average iterations meetCAAR,
              copies_average iterations missCAAR))).
Proof.
  intros Hi Hc. pose proof Hc as (Cb & Cm & Cs).
  assert (Hbody : forall r s j,
             StockAnalyzer.iteration r s a sampleSize j
             = StockAnalyzer.iteration rd' shuffle' a sampleSize j).
  { intros r s j. unfold StockAnalyzer.iteration.
    apply bind_cong; [ | intros sb k1].
    { rewrite !sampleStocks_all by assumption. reflexivity. }
    apply bind_cong; [ | intros sm k2].
    { rewrite !sampleStocks_all by assumption. reflexivity. }
    apply bind_cong; [ | reflexivity].
    rewrite !sampleStocks_all by assumption. reflexivity. }
  assert (Hcount : forall j r j',
             StockAnalyzer.iteration rd shuffle a sampleSize j = Returns (r, j') -> j' = j).
  { intros j [ [b m] s] j' E. apply iteration_inversion in E.
    destruct E as (sb & k1 & sm & k2 & ss & E1 & E2 & E3 & _).
    rewrite sampleStocks_all in E1, E2, E3 by assumption.
    injection E1 as _ <-. injection E2 as _ <-. injection E3 as _ <-. reflexivity. }
  split.
  - unfold StockAnalyzer.performBootstrapping.
    apply bind_cong; [reflexivity | intros B k1].
    apply bind_cong; [reflexivity | intros M k2].
    apply bind_cong; [reflexivity | intros S k3].
    apply bind_cong; [apply iterate_agree, Hbody | reflexivity].
  - intros c k' R. split.
    + revert R. unfold StockAnalyzer.performBootstrapping.
      unfold bind at 1. unfold lift at 1.
      destruct (checked_resize sizeof_vector (to_size_t iterations) [] [])
        as [V | e]; [ | discriminate].
      unfold bind at 1. unfold lift at 1. unfold bind at 1. unfold lift at 1.
      unfold bind at 1.
      destruct (StockAnalyzer.iterate rd shuffle a sampleSize (Z.to_nat iterations) 0 V V V k)
        as [ [ [ [B M] S] k1] | e] eqn:E; [ | discriminate].
      apply (iterate_counter rd shuffle a sampleSize Hcount) in E. subst k1.
      cbv zeta. unfold bind, lift, ret.
      destruct (checked_resize sizeof_double (StockAnalyzer.min_size B) 0%float [])
        ; [ | discriminate].
      destruct (checked_resize sizeof_double (StockAnalyzer.min_size M) 0%float [])
        ; [ | discriminate].
      destruct (checked_resize sizeof_double (StockAnalyzer.min_size S) 0%float [])
        ; [ | discriminate].
      intros R. injection R as _ <-. reflexivity.
    + intros Hn.
      destruct (Z.le_gt_cases iterations 0) as [L | L].
      { rewrite (performBootstrapping_no_iterations rd shuffle a sampleSize iterations k Hn L)
          in R. discriminate R. }
      unfold is_int in Hn. revert R. unfold StockAnalyzer.performBootstrapping.
      unfold bind at 1. rewrite vector_of_vectors by lia.
      unfold bind at 1. rewrite vector_of_vectors by lia.
      unfold bind at 1. rewrite vector_of_vectors by lia.
      destruct (Z.to_nat iterations) as [ | n] eqn:En; [lia | ].
      unfold bind at 1.
      destruct (StockAnalyzer.iterate rd shuffle a sampleSize (Datatypes.S n) 0
                  (repeat [] (Datatypes.S n)) (repeat [] (Datatypes.S n))
                  (repeat [] (Datatypes.S n)) k)
        as [ [ [ [B M] T] k1] | e] eqn:E; [ | discriminate].
      assert (Ei : exists b m s k2,
                 StockAnalyzer.iteration rd shuffle a sampleSize k = Returns ((b, m, s), k2)).
      { cbn [StockAnalyzer.iterate] in E. unfold bind at 1 in E.
        destruct (StockAnalyzer.iteration rd shuffle a sampleSize k)
          as [ [ [ [b m] s] k2] | e]; [ | discriminate E].
        exists b, m, s, k2. reflexivity. }
      destruct Ei as (b & m & s & k2 & Ei).
      pose proof (iteration_returns _ _ _ _ _ _ _ _ _ Ei) as (Lb & Lm & Ls).
      destruct (whole_iteration rd shuffle a sampleSize k k2 b m s Hi Hc Ei)
        as (Hall & Wb & Wm & Ws).
      pose proof (iterate_constant rd shuffle a sampleSize b m s Hall (Datatypes.S n) 0 k) as C.
      change (repeat b 0) with (@nil (list float)) in C.
      change (repeat m 0) with (@nil (list float)) in C.
      change (repeat s 0) with (@nil (list float)) in C.
      cbn [app Nat.add] in C. rewrite C in E.
      injection E as <- <- <- <-.
      cbv zeta.
      change (b :: repeat b n) with (repeat b (Datatypes.S n)).
      change (m :: repeat m n) with (repeat m (Datatypes.S n)).
      change (s :: repeat s n) with (repeat s (Datatypes.S n)).
      rewrite !min_size_copies by (apply Lb || apply Lm || apply Ls).
      assert (Z0 : forall v : list float, double_vector v ->
                lift (A := list float)
                  (checked_resize sizeof_double (Z.of_nat (length v)) 0%float []) k
                = Returns (repeat 0%float (length v), k)).
      { intros v Hv. unfold lift, checked_resize. unfold double_vector in Hv.
        destruct (Z.ltb_spec (max_size sizeof_double) (Z.of_nat (length v))); [lia | ].
        rewrite resize_nil, Nat2Z.id. reflexivity. }
      unfold bind at 1. rewrite (Z0 b) by apply Lb.
      unfold bind at 1. rewrite (Z0 m) by apply Lm.
      unfold bind at 1. rewrite (Z0 s) by apply Ls.
      unfold ret. intros R. injection R as <- _.
      exists b, m, s. unfold copies_average. rewrite En.
      repeat split; assumption.
Qed.

Lemma sampleStocks_empty (rd : nat -> N) (shuffle : N -> list StockPtr -> list StockPtr)
    (g : Group.t) (sampleSize : Z) (k : nat) :
  Group.stocks g = [] ->
  Group.sampleStocks rd shuffle g sampleSize k = Returns ([], k).
Proof.
  intros E. unfold Group.sampleStocks. rewrite E. cbn [length Z.of_nat].
  pose proof (to_size_t_range sampleSize) as H.
  destruct (Z.leb_spec 0 (to_size_t sampleSize)); [reflexivity | lia].
Qed.

(** The average over stored vectors that are all empty. *)
Lemma average_of_empties (iterations : Z) (n : nat) :
  checked_resize sizeof_double (StockAnalyzer.min_size (repeat [] (S n))) 0%float []
  = Returns [] /\
  forall avg, StockAnalyzer.average iterations
                (StockAnalyzer.min_size (repeat [] (S n))) (repeat [] (S n)) avg = avg.
Proof.
  rewrite min_size_empties. split; [reflexivity | ].
  intros avg. unfold StockAnalyzer.average. change (Z.to_nat 0) with 0%nat.
  unfold StockAnalyzer.sum_across.
  assert (H : forall m, fold_left (fun v (caar : list float) => add_days 0 v caar)
                          (repeat [] m) avg = avg).
  { induction m as [ | m IH]; [reflexivity | ]. cbn [repeat fold_left]. exact IH. }
  rewrite H. destruct avg; reflexivity.
Qed.

(** X11.  A group without members gets an empty averaged vector from every
    run that returns, whatever the other groups hold. *)
Theorem bootstrap_empty_group (rd : nat -> N)
    (shuffle : N -> list StockPtr -> list StockPtr)
    (a : StockAnalyzer.t) (sampleSize iterations : Z) (k k' : nat)
    (avgBeat avgMeet avgMiss : list float) :
  is_int iterations ->
  StockAnalyzer.performBootstrapping rd shuffle a sampleSize iterations k
  = Returns ((avgBeat, avgMeet, avgMiss), k') ->
  (Group.stocks (StockAnalyzer.beatGroup a) = [] -> avgBeat = []) /\
  (Group.stocks (StockAnalyzer.meetGroup a) = [] -> avgMeet = []) /\
  (Group.stocks (StockAnalyzer.missGroup a) = [] -> avgMiss = []).
Proof.
  intros Hi E.
  assert (H1 : 1 <= iterations).
  { destruct (Z.le_gt_cases 1 iterations) as [H | H]; [exact H | ].
    rewrite performBootstrapping_no_iterations in E by (assumption || lia).
    discriminate E. }
  unfold is_int in Hi.
  unfold StockAnalyzer.performBootstrapping in E.
  unfold bind at 1 in E. rewrite vector_of_vectors in E by lia.
  unfold bind at 1 in E. rewrite vector_of_vectors in E by lia.
  unfold bind at 1 in E. rewrite vector_of_vectors in E by lia.
  unfold bind at 1 in E.
  destruct (Z.to_nat iterations) as [ | n] eqn:En; [lia | ].
  destruct (StockAnalyzer.iterate rd shuffle a sampleSize (S n) 0 _ _ _ k)
    as [ [ [ [B M] T] k1] | e] eqn:Eit; [ | discriminate E].
  cbv zeta in E. unfold bind, lift, ret in E.
  destruct (checked_resize sizeof_double (StockAnalyzer.min_size B) 0%float [])
    as [vb | e] eqn:Rb; [ | discriminate E].
  destruct (checked_resize sizeof_double (StockAnalyzer.min_size M) 0%float [])
    as [vm | e] eqn:Rm; [ | discriminate E].
  destruct (checked_resize sizeof_double (StockAnalyzer.min_size T) 0%float [])
    as [vs | e] eqn:Rs; [ | discriminate E].
  injection E as <- <- <- _.
  assert (Hbody : forall j r j',
             StockAnalyzer.iteration rd shuffle a sampleSize j = Returns (r, j') ->
             (Group.stocks (StockAnalyzer.beatGroup a) = [] -> fst (fst r) = []) /\
             (Group.stocks (StockAnalyzer.meetGroup a) = [] -> snd (fst r) = []) /\
             (Group.stocks (StockAnalyzer.missGroup a) = [] -> snd r = [])).
  { intros j [ [b m] s] j' Ei. apply iteration_inversion in Ei.
    destruct Ei as (sb & k2 & sm & k3 & ss & E1 & E2 & E3 & Tb & Tm & Ts).
    cbn [fst snd]. repeat split; intros Hempty.
    - rewrite sampleStocks_empty in E1 by exact Hempty. injection E1 as <- _.
      rewrite tempCAAR_new in Tb. injection Tb as <-. reflexivity.
    - rewrite sampleStocks_empty in E2 by exact Hempty. injection E2 as <- _.
      rewrite tempCAAR_new in Tm. injection Tm as <-. reflexivity.
    - rewrite sampleStocks_empty in E3 by exact Hempty. injection E3 as <- _.
      rewrite tempCAAR_new in Ts. injection Ts as <-. reflexivity. }
  pose proof (iterate_invariant rd shuffle a sampleSize _
     (fun R =>
        (Group.stocks (StockAnalyzer.beatGroup a) = [] -> fst (fst R) = repeat [] (S n)) /\
        (Group.stocks (StockAnalyzer.meetGroup a) = [] -> snd (fst R) = repeat [] (S n)) /\
        (Group.stocks (StockAnalyzer.missGroup a) = [] -> snd R = repeat [] (S n)))
     Hbody) as Hinv.
  cbn [fst snd] in Hinv.
  specialize (Hinv
    ltac:(intros i b m s B0 M0 S0 (Pb & Pm & Ps) (Qb & Qm & Qs);
          repeat split; intros Hempty;
          [ rewrite (Pb Hempty), (Qb Hempty) | rewrite (Pm Hempty), (Qm Hempty)
          | rewrite (Ps Hempty), (Qs Hempty) ]; apply assign_repeat)
    _ _ _ _ _ _ _ _ ltac:(repeat split; reflexivity) Eit).
  destruct Hinv as (Ib & Im & Is). cbn [fst snd] in Ib, Im, Is.
  repeat split; intros Hempty.
  - rewrite (Ib Hempty) in *.
    destruct (average_of_empties iterations n) as [R A].
    rewrite R in Rb. injection Rb as <-. apply A.
  - rewrite (Im Hempty) in *.
    destruct (average_of_empties iterations n) as [R A].
    rewrite R in Rm. injection Rm as <-. apply A.
  - rewrite (Is Hempty) in *.
    destruct (average_of_empties iterations n) as [R A].
    rewrite R in Rs. injection Rs as <-. apply A.
Qed.

End RunFacts.

(** * [parsePrices] *)

Section ParseFacts.
Variable stod : string -> option float.





(** The last [getline], on what holds no delimiter. *)
Lemma getlines_last (d : ascii) (s : string) :
  Csv.free_of d s ->
  Csv.getlines d s = match s with EmptyString => [] | _ => [s] end.
Proof.
  induction s as [ | c s IH]; simpl; [reflexivity | ].
  intros [Hc Hs]. apply Ascii.eqb_neq in Hc. rewrite Hc, (IH Hs).
  destruct s; reflexivity.
Qed.







(** X20.  Without a line after the first, [parsePrices] returns no price:
    the first line is never read as a price. *)
Lemma parsePrices_header_only (data : string) :
  Csv.free_of Csv.newline data -> Csv.parsePrices stod data = [].
Proof.
  intros H. unfold Csv.parsePrices. rewrite (getlines_last _ _ H).
  destruct data; reflexivity.
Qed.

End ParseFacts.

(** * The exported tables *)

Section ReportFacts.
Variable show_double : float -> string.


End ReportFacts.

(** * [StockAnalyzer::retrieveHistoricalData] *)

Section RetrievalFacts.
Variable fetchData : string -> string.
Variable stod : string -> option float.

Lemma same_record_refl (s : Stock.t) : same_record s s.
Proof. repeat split. Qed.

Lemma same_record_trans (s1 s2 s3 : Stock.t) :
  same_record s1 s2 -> same_record s2 s3 -> same_record s1 s3.
Proof.
  intros (A1 & A2 & A3 & A4) (B1 & B2 & B3 & B4).
  repeat split; congruence.
Qed.

Lemma has_label_same (h h' : heap) (l : Label) (p : StockPtr) :
  same_record (h p) (h' p) -> has_label h' l p = has_label h l p.
Proof.
  intros (_ & E1 & E2 & _). unfold has_label, label_of. rewrite E1, E2. reflexivity.
Qed.

Lemma labelled_same (h h' : heap) (l : Label) (nodes : list StockPtr) :
  (forall p, same_record (h p) (h' p)) -> labelled h' l nodes = labelled h l nodes.
Proof.
  intros H. unfold labelled. apply filter_ext. intros p. apply has_label_same, H.
Qed.

Lemma labelled_cons (h : heap) (l : Label) (p : StockPtr) (nodes : list StockPtr) :
  labelled h l (p :: nodes) = labelled h l [p] ++ labelled h l nodes.
Proof.
  unfold labelled. cbn [filter]. destruct (has_label h l p); reflexivity.
Qed.

(** Every node goes to one of the three lists. *)
Lemma labelled_partition (h : heap) (nodes : list StockPtr) :
  Permutation (labelled h Beat nodes ++ labelled h Meet nodes ++ labelled h Miss nodes)
    nodes.
Proof.
  induction nodes as [ | p nodes IH]; [constructor | ].
  rewrite !(labelled_cons _ _ p nodes). unfold labelled at 1 3 5, has_label.
  cbn [filter].
  destruct (label_of h p); cbn [app].
  - constructor. exact IH.
  - eapply Permutation_trans; [apply Permutation_sym, Permutation_middle | ].
    constructor. exact IH.
  - rewrite app_assoc.
    eapply Permutation_trans; [apply Permutation_sym, Permutation_middle | ].
    rewrite <- app_assoc. constructor. exact IH.
Qed.

(** The table of stocks after one round of the loop. *)
Lemma retrieve_one_heap (key : string) (market : list float)
    (a : StockAnalyzer.t) (p : StockPtr) :
  StockAnalyzer.stocksMap (Retrieval.retrieve_one fetchData stod key market a p)
  = Retrieval.store (StockAnalyzer.stocksMap a) p
      (Stock.calculateAbnormalReturns
         (Stock.calculateReturns
            (Retrieval.set_prices (StockAnalyzer.stocksMap a p)
               (MarketData.fetchHistoricalData fetchData stod key
                  (Stock.symbol (StockAnalyzer.stocksMap a p)) "" "")))
         market).
Proof.
  unfold Retrieval.retrieve_one. cbv zeta.
  destruct (String.eqb _ "Beat"); [reflexivity | ].
  destruct (String.eqb _ "Meet"); reflexivity.
Qed.

(** What one round of the loop does, for the node at [p]. *)
Lemma retrieve_one_spec (key : string) (market : list float)
    (a : StockAnalyzer.t) (p : StockPtr) :
  let h := StockAnalyzer.stocksMap a in
  let a' := Retrieval.retrieve_one fetchData stod key market a p in
  let h' := StockAnalyzer.stocksMap a' in
  Group.stocks (StockAnalyzer.beatGroup a')
    = Group.stocks (StockAnalyzer.beatGroup a) ++ labelled h Beat [p] /\
  Group.stocks (StockAnalyzer.meetGroup a')
    = Group.stocks (StockAnalyzer.meetGroup a) ++ labelled h Meet [p] /\
  Group.stocks (StockAnalyzer.missGroup a')
    = Group.stocks (StockAnalyzer.missGroup a) ++ labelled h Miss [p] /\
  (forall q, same_record (h q) (h' q)) /\
  retrieved fetchData stod key market (h' p) /\
  (forall q, q <> p -> h' q = h q).
Proof.
  cbv zeta. rewrite retrieve_one_heap.
  split; [ | split; [ | split] ].
  1-3: unfold Retrieval.retrieve_one, labelled, has_label, label_of, Stock.getGroup;
    cbn [Stock.calculateAbnormalReturns Stock.calculateReturns Retrieval.set_prices
         Stock.epsEstimate Stock.actualEPS filter];
    destruct (classify (Stock.epsEstimate (StockAnalyzer.stocksMap a p))
                (Stock.actualEPS (StockAnalyzer.stocksMap a p)));
    cbn [label_name String.eqb Ascii.eqb Bool.eqb andb
         StockAnalyzer.beatGroup StockAnalyzer.meetGroup StockAnalyzer.missGroup
         Group.addStock Group.stocks];
    rewrite ?app_nil_r; reflexivity.
  split; [ | split].
  - intros q. unfold Retrieval.store. destruct (N.eqb_spec q p) as [-> | Hq].
    + repeat split.
    + apply same_record_refl.
  - unfold Retrieval.store, retrieved. rewrite N.eqb_refl. repeat split.
  - intros q Hq. unfold Retrieval.store. apply N.eqb_neq in Hq. rewrite Hq.
    reflexivity.
Qed.

(** What the loop over the nodes does. *)
Lemma retrieve_all_spec (key : string) (market : list float)
    (nodes : list StockPtr) (a : StockAnalyzer.t) :
  let h := StockAnalyzer.stocksMap a in
  let a' := fold_left (Retrieval.retrieve_one fetchData stod key market) nodes a in
  let h' := StockAnalyzer.stocksMap a' in
  Group.stocks (StockAnalyzer.beatGroup a')
    = Group.stocks (StockAnalyzer.beatGroup a) ++ labelled h Beat nodes /\
  Group.stocks (StockAnalyzer.meetGroup a')
    = Group.stocks (StockAnalyzer.meetGroup a) ++ labelled h Meet nodes /\
  Group.stocks (StockAnalyzer.missGroup a')
    = Group.stocks (StockAnalyzer.missGroup a) ++ labelled h Miss nodes /\
  (forall q, same_record (h q) (h' q)) /\
  (forall q, In q nodes -> retrieved fetchData stod key market (h' q)) /\
  (forall q, ~ In q nodes -> h' q = h q).
Proof.
  revert a. induction nodes as [ | p nodes IH]; intros a; cbv zeta.
  - cbn [fold_left labelled filter]. unfold labelled. cbn [filter].
    rewrite !app_nil_r.
    split; [reflexivity | split; [reflexivity | split; [reflexivity | ] ] ].
    split; [intros q; apply same_record_refl | split; [intros q [] | reflexivity] ].
  - cbn [fold_left].
    destruct (retrieve_one_spec key market a p) as (B1 & M1 & S1 & R1 & T1 & F1).
    destruct (IH (Retrieval.retrieve_one fetchData stod key market a p))
      as (B2 & M2 & S2 & R2 & T2 & F2).
    cbv zeta in *.
    rewrite B2, M2, S2, B1, M1, S1, !(labelled_same _ _ _ _ R1), <- !app_assoc.
    rewrite !(labelled_cons _ _ p nodes).
    split; [reflexivity | split; [reflexivity | split; [reflexivity | ] ] ].
    split; [ | split].
    + intros q. eapply same_record_trans; [apply R1 | apply R2].
    + intros q [<- | Hin]; [ | apply T2, Hin].
      destruct (in_dec N.eq_dec p nodes) as [Hin | Hout]; [apply T2, Hin | ].
      rewrite (F2 p Hout). exact T1.
    + intros q Hq. rewrite F2 by (intros Hin; apply Hq; right; exact Hin).
      apply F1. intros ->. apply Hq. left. reflexivity.
Qed.

Lemma calculateGroupMetrics_frame (a a' : StockAnalyzer.t) :
  StockAnalyzer.calculateGroupMetrics a = Returns a' ->
  StockAnalyzer.stocksMap a' = StockAnalyzer.stocksMap a /\
  Group.stocks (StockAnalyzer.beatGroup a') = Group.stocks (StockAnalyzer.beatGroup a) /\
  Group.stocks (StockAnalyzer.meetGroup a') = Group.stocks (StockAnalyzer.meetGroup a) /\
  Group.stocks (StockAnalyzer.missGroup a') = Group.stocks (StockAnalyzer.missGroup a).
Proof.
  unfold StockAnalyzer.calculateGroupMetrics.
  destruct (Group.calculateAAR _ (StockAnalyzer.beatGroup a)) as [b | e] eqn:Eb;
    [ | discriminate].
  destruct (Group.calculateAAR _ (StockAnalyzer.meetGroup a)) as [m | e] eqn:Em;
    [ | discriminate].
  destruct (Group.calculateAAR _ (StockAnalyzer.missGroup a)) as [s | e] eqn:Es;
    [ | discriminate].
  intros E. injection E as <-.
  apply calculateAAR_returns in Eb, Em, Es.
  destruct Eb as (Eb & _), Em as (Em & _), Es as (Es & _).
  cbn [StockAnalyzer.stocksMap StockAnalyzer.beatGroup StockAnalyzer.meetGroup
       StockAnalyzer.missGroup Group.calculateCAAR Group.set_caar Group.stocks].
  auto.
Qed.

(** The whole of [retrieveHistoricalData], when it returns. *)
Lemma retrieve_spec (s s' : Retrieval.t) :
  Retrieval.retrieveHistoricalData fetchData stod s = Returns s' ->
  let h := StockAnalyzer.stocksMap (Retrieval.analyzer s) in
  let h' := StockAnalyzer.stocksMap (Retrieval.analyzer s') in
  let a := Retrieval.analyzer s in
  let a' := Retrieval.analyzer s' in
  Retrieval.apiKey s' = Retrieval.apiKey s /\
  Retrieval.nodes s' = Retrieval.nodes s /\
  Retrieval.marketPrices s'
    = MarketData.fetchHistoricalData fetchData stod (Retrieval.apiKey s) "SPY" "" "" /\
  Retrieval.marketReturns s'
    = MarketData.calculateMarketReturns (Retrieval.marketPrices s') /\
  Group.stocks (StockAnalyzer.beatGroup a')
    = Group.stocks (StockAnalyzer.beatGroup a) ++ labelled h Beat (Retrieval.nodes s) /\
  Group.stocks (StockAnalyzer.meetGroup a')
    = Group.stocks (StockAnalyzer.meetGroup a) ++ labelled h Meet (Retrieval.nodes s) /\
  Group.stocks (StockAnalyzer.missGroup a')
    = Group.stocks (StockAnalyzer.missGroup a) ++ labelled h Miss (Retrieval.nodes s) /\
  (forall q, same_record (h q) (h' q)) /\
  (forall q, In q (Retrieval.nodes s) ->
     retrieved fetchData stod (Retrieval.apiKey s) (Retrieval.marketReturns s') (h' q)) /\
  (forall q, ~ In q (Retrieval.nodes s) -> h' q = h q).
Proof.
  unfold Retrieval.retrieveHistoricalData.
  set (market := MarketData.calculateMarketReturns _).
  destruct (StockAnalyzer.calculateGroupMetrics _) as [a1 | e] eqn:E; [ | discriminate].
  intros R. injection R as <-.
  apply calculateGroupMetrics_frame in E. destruct E as (Eh & Eb & Em & Es).
  destruct (retrieve_all_spec (Retrieval.apiKey s) market (Retrieval.nodes s)
              (Retrieval.analyzer s)) as (B & M & S' & R & T & F).
  cbv zeta in *.
  cbn [Retrieval.analyzer Retrieval.apiKey Retrieval.nodes Retrieval.marketPrices
       Retrieval.marketReturns].
  rewrite Eh, Eb, Em, Es.
  repeat split; try assumption; try reflexivity; try apply R.
  - apply T. assumption.
  - apply T. assumption.
  - apply T. assumption.
Qed.

(** X14.  When it returns, [retrieveHistoricalData] has appended the address
    of every node of the stock table, in table order, to the one group its
    EPS classify it into; the members the groups held before stay in front,
    and the record of every stock is unchanged. *)
Theorem retrieval_fills_groups (s s' : Retrieval.t) :
  Retrieval.retrieveHistoricalData fetchData stod s = Returns s' ->
  let h := StockAnalyzer.stocksMap (Retrieval.analyzer s) in
  let a := Retrieval.analyzer s in
  let a' := Retrieval.analyzer s' in
  Group.stocks (StockAnalyzer.beatGroup a')
    = Group.stocks (StockAnalyzer.beatGroup a) ++ labelled h Beat (Retrieval.nodes s) /\
  Group.stocks (StockAnalyzer.meetGroup a')
    = Group.stocks (StockAnalyzer.meetGroup a) ++ labelled h Meet (Retrieval.nodes s) /\
  Group.stocks (StockAnalyzer.missGroup a')
    = Group.stocks (StockAnalyzer.missGroup a) ++ labelled h Miss (Retrieval.nodes s) /\
  Permutation (labelled h Beat (Retrieval.nodes s) ++ labelled h Meet (Retrieval.nodes s)
               ++ labelled h Miss (Retrieval.nodes s))
              (Retrieval.nodes s) /\
  (forall q, same_record (h q) (StockAnalyzer.stocksMap a' q)).
Proof.
  intros E. apply retrieve_spec in E. cbv zeta in *.
  destruct E as (_ & _ & _ & _ & B & M & S' & R & _).
  split; [exact B | split; [exact M | split; [exact S' | split; [ | exact R] ] ] ].
  apply labelled_partition.
Qed.

(** X15.  When [retrieveHistoricalData] returns, the market returns are
    those of the prices fetched for SPY, and every stock of the table holds
    the prices fetched for its symbol, their daily returns, and the abnormal
    returns against the market, as many as the shorter of the two return
    series. *)
Theorem retrieval_fills_series (s s' : Retrieval.t) :
  Retrieval.retrieveHistoricalData fetchData stod s = Returns s' ->
  Retrieval.marketPrices s'
    = MarketData.fetchHistoricalData fetchData stod (Retrieval.apiKey s) "SPY" "" "" /\
  Retrieval.marketReturns s'
    = MarketData.calculateMarketReturns (Retrieval.marketPrices s') /\
  forall p, In p (Retrieval.nodes s) ->
    let stock := StockAnalyzer.stocksMap (Retrieval.analyzer s') p in
    retrieved fetchData stod (Retrieval.apiKey s) (Retrieval.marketReturns s') stock /\
    length (Stock.abnormalReturns stock)
      = Nat.min (length (Stock.prices stock) - 1)
                (length (Retrieval.marketPrices s') - 1).
Proof.
  intros E. apply retrieve_spec in E. cbv zeta in *.
  destruct E as (_ & _ & Ep & Er & _ & _ & _ & _ & T & _).
  split; [exact Ep | split; [exact Er | ] ].
  intros p Hin. specialize (T p Hin). split; [exact T | ].
  destruct T as (_ & T2 & T3).
  rewrite T3, abnormal_loop_length, T2, daily_returns_length, Er,
    market_returns_daily, daily_returns_length.
  reflexivity.
Qed.

(** X16.  The groups are never cleared: after a second
    [retrieveHistoricalData] every group holds the stocks of its label
    twice. *)
Theorem retrieval_twice (s s1 s2 : Retrieval.t) :
  Retrieval.retrieveHistoricalData fetchData stod s = Returns s1 ->
  Retrieval.retrieveHistoricalData fetchData stod s1 = Returns s2 ->
  let h := StockAnalyzer.stocksMap (Retrieval.analyzer s) in
  let a := Retrieval.analyzer s in
  let a2 := Retrieval.analyzer s2 in
  Group.stocks (StockAnalyzer.beatGroup a2)
    = Group.stocks (StockAnalyzer.beatGroup a)
      ++ labelled h Beat (Retrieval.nodes s) ++ labelled h Beat (Retrieval.nodes s) /\
  Group.stocks (StockAnalyzer.meetGroup a2)
    = Group.stocks (StockAnalyzer.meetGroup a)
      ++ labelled h Meet (Retrieval.nodes s) ++ labelled h Meet (Retrieval.nodes s) /\
  Group.stocks (StockAnalyzer.missGroup a2)
    = Group.stocks (StockAnalyzer.missGroup a)
      ++ labelled h Miss (Retrieval.nodes s) ++ labelled h Miss (Retrieval.nodes s).
Proof.
  intros E1 E2. apply retrieve_spec in E1, E2. cbv zeta in *.
  destruct E1 as (_ & N1 & _ & _ & B1 & M1 & S1 & R1 & _).
  destruct E2 as (_ & _ & _ & _ & B2 & M2 & S2 & _).
  rewrite B2, M2, S2, B1, M1, S1, N1, !(labelled_same _ _ _ _ R1), <- !app_assoc.
  repeat split.
Qed.

(** X17.  If every member of each group carries the label of its group
    before [retrieveHistoricalData], so it does when it returns. *)
Theorem retrieval_keeps_groups_sorted (s s' : Retrieval.t) :
  Retrieval.retrieveHistoricalData fetchData stod s = Returns s' ->
  well_sorted (Retrieval.analyzer s) -> well_sorted (Retrieval.analyzer s').
Proof.
  intros E (Wb & Wm & Ws). apply retrieve_spec in E. cbv zeta in *.
  destruct E as (_ & _ & _ & _ & B & M & S' & R & _).
  assert (H : forall l v,
             Forall (fun p => has_label (StockAnalyzer.stocksMap (Retrieval.analyzer s)) l p
                              = true) v ->
             Forall (fun p => has_label (StockAnalyzer.stocksMap (Retrieval.analyzer s')) l p
                              = true)
               (v ++ labelled (StockAnalyzer.stocksMap (Retrieval.analyzer s)) l
                       (Retrieval.nodes s))).
  { intros l v Hv. apply Forall_app. split.
    - eapply Forall_impl; [ | exact Hv]. intros p Hp.
      rewrite (has_label_same _ _ l p (R p)). exact Hp.
    - apply Forall_forall. intros p Hin. apply filter_In in Hin.
      rewrite (has_label_same _ _ l p (R p)). apply Hin. }
  unfold well_sorted. cbv zeta. rewrite B, M, S'.
  split; [apply H, Wb | split; [apply H, Wm | apply H, Ws] ].
Qed.

End RetrievalFacts.

(** * When the aggregation and the bootstrap return *)

Section TotalityFacts.

Lemma calculateAAR_total (h : heap) (g : Group.t) :
  int_sized h (Group.stocks g) -> exists g', Group.calculateAAR h g = Returns g'.
Proof.
  intros H. unfold Group.calculateAAR.
  destruct (Group.stocks g) as [ | first rest]; [eexists; reflexivity | ].
  apply Forall_inv in H. rewrite to_int_small, to_size_t_nonneg by lia.
  unfold checked_resize.
  change (max_size sizeof_double) with 1152921504606846975.
  unfold INT_MAX in H.
  destruct (Z.ltb_spec 1152921504606846975
              (Z.of_nat (length (Stock.abnormalReturns (h first))))); [lia | ].
  eexists. reflexivity.
Qed.

(** X18.  [calculateGroupMetrics] returns whenever the abnormal-return
    vectors of the members have sizes an [int] holds. *)
Theorem calculateGroupMetrics_returns (a : StockAnalyzer.t) :
  groups_int_sized a -> exists a', StockAnalyzer.calculateGroupMetrics a = Returns a'.
Proof.
  intros (Hb & Hm & Hs). unfold StockAnalyzer.calculateGroupMetrics.
  destruct (calculateAAR_total _ _ Hb) as [b ->].
  destruct (calculateAAR_total _ _ Hm) as [m ->].
  destruct (calculateAAR_total _ _ Hs) as [s ->].
  eexists. reflexivity.
Qed.

Variable rd : nat -> N.
Variable shuffle : N -> list StockPtr -> list StockPtr.
Hypothesis shuffle_permutes : forall seed v, Permutation (shuffle seed v) v.

Lemma sampleStocks_incl (g : Group.t) (sampleSize : Z) (k k' : nat)
    (sample : list StockPtr) :
  Group.sampleStocks rd shuffle g sampleSize k = Returns (sample, k') ->
  incl sample (Group.stocks g).
Proof.
  unfold Group.sampleStocks. destruct (_ <=? _).
  - unfold ret. intros E. injection E as <- _. apply incl_refl.
  - unfold bind, Group.random_device, ret. intros E. injection E as <- _.
    intros p Hin. apply (Permutation_in p (shuffle_permutes (rd k) (Group.stocks g))).
    rewrite <- (firstn_skipn (Z.to_nat sampleSize) (shuffle (rd k) (Group.stocks g))).
    apply in_or_app. left. exact Hin.
Qed.

Lemma tempCAAR_total (h : heap) (groupName : string) (sample : list StockPtr) (k : nat) :
  int_sized h sample ->
  exists v,
    StockAnalyzer.tempCAAR h (StockAnalyzer.tempGroup groupName sample) k = Returns (v, k).
Proof.
  intros H.
  destruct (tempGroup_fields groupName sample) as (Es & _).
  destruct (calculateAAR_total h (StockAnalyzer.tempGroup groupName sample)) as [g' E].
  - rewrite Es. exact H.
  - unfold StockAnalyzer.tempCAAR, bind, lift, ret. rewrite E. eexists. reflexivity.
Qed.

Lemma int_sized_incl (h : heap) (v w : list StockPtr) :
  incl v w -> int_sized h w -> int_sized h v.
Proof.
  unfold int_sized. rewrite !Forall_forall. intros Hi Hw p Hp. apply Hw, Hi, Hp.
Qed.

Lemma iteration_total (a : StockAnalyzer.t) (sampleSize : Z) (k : nat) :
  groups_int_sized a ->
  exists r k', StockAnalyzer.iteration rd shuffle a sampleSize k = Returns (r, k').
Proof.
  intros (Hb & Hm & Hs). unfold StockAnalyzer.iteration.
  destruct (sampleStocks_returns rd shuffle (StockAnalyzer.beatGroup a) sampleSize k)
    as (sb & k1 & E1).
  destruct (sampleStocks_returns rd shuffle (StockAnalyzer.meetGroup a) sampleSize k1)
    as (sm & k2 & E2).
  destruct (sampleStocks_returns rd shuffle (StockAnalyzer.missGroup a) sampleSize k2)
    as (ss & k3 & E3).
  unfold bind at 1. rewrite E1. unfold bind at 1. rewrite E2.
  unfold bind at 1. rewrite E3. cbv zeta.
  apply sampleStocks_incl in E1, E2, E3.
  destruct (tempCAAR_total (StockAnalyzer.stocksMap a) "TempBeat" sb k3
              (int_sized_incl _ _ _ E1 Hb)) as [vb Tb].
  destruct (tempCAAR_total (StockAnalyzer.stocksMap a) "TempMeet" sm k3
              (int_sized_incl _ _ _ E2 Hm)) as [vm Tm].
  destruct (tempCAAR_total (StockAnalyzer.stocksMap a) "TempMiss" ss k3
              (int_sized_incl _ _ _ E3 Hs)) as [vs Ts].
  unfold bind at 1. rewrite Tb. unfold bind at 1. rewrite Tm.
  unfold bind at 1. rewrite Ts. eexists. eexists. reflexivity.
Qed.

Lemma iterate_total (a : StockAnalyzer.t) (sampleSize : Z) :
  groups_int_sized a ->
  forall n i B M T k,
    exists R k', StockAnalyzer.iterate rd shuffle a sampleSize n i B M T k = Returns (R, k').
Proof.
  intros H. induction n as [ | n IH]; intros i B M T k.
  - eexists. eexists. reflexivity.
  - cbn [StockAnalyzer.iterate]. unfold bind.
    destruct (iteration_total a sampleSize k H) as ([ [b m] s] & k1 & ->). apply IH.
Qed.

Lemma assign_length {A : Type} (i : nat) (x : A) (v : list A) :
  length (assign i x v) = length v.
Proof.
  revert i. induction v as [ | y v IH]; intros [ | i]; simpl; try reflexivity.
  rewrite IH. reflexivity.
Qed.

Lemma assign_Forall {A : Type} (P : A -> Prop) (i : nat) (x : A) (v : list A) :
  P x -> Forall P v -> Forall P (assign i x v).
Proof.
  intros Hx Hv. revert i. induction Hv as [ | y v Hy Hv IH]; intros [ | i]; simpl;
    constructor; auto.
Qed.

(** The smallest size among stored vectors, when there is one. *)
Lemma min_size_bound (CAARs : list (list float)) :
  CAARs <> [] -> Forall double_vector CAARs ->
  0 <= StockAnalyzer.min_size CAARs <= max_size sizeof_double.
Proof.
  unfold StockAnalyzer.min_size, double_vector.
  change (max_size sizeof_double) with 1152921504606846975.
  intros Hne H.
  assert (G : forall acc, 0 <= acc ->
              0 <= fold_left (fun m (c : list float) => Z.min m (Z.of_nat (length c))) CAARs acc
              /\ (fold_left (fun m (c : list float) => Z.min m (Z.of_nat (length c))) CAARs acc
                  <= acc)
              /\ (CAARs <> [] ->
                  fold_left (fun m (c : list float) => Z.min m (Z.of_nat (length c))) CAARs acc
                  <= 1152921504606846975)).
  { clear Hne. induction H as [ | c CAARs Hc H IH]; intros acc Hacc; cbn [fold_left].
    - repeat split; try lia. congruence.
    - destruct (IH (Z.min acc (Z.of_nat (length c)))) as (I1 & I2 & I3); [lia | ].
      repeat split; try lia. }
  destruct (G SIZE_MAX) as (G1 & _ & G3); [unfold SIZE_MAX; lia | ].
  split; [exact G1 | exact (G3 Hne)].
Qed.

(** X19.  With at least one iteration [performBootstrapping] returns,
    whatever the sample size, when the abnormal-return vectors of the
    members have sizes an [int] holds; with none it throws.  The number
    of iterations alone decides between the two. *)
Theorem performBootstrapping_returns (a : StockAnalyzer.t)
    (sampleSize iterations : Z) (k : nat) :
  is_int iterations -> groups_int_sized a ->
  (1 <= iterations ->
     exists c k',
       StockAnalyzer.performBootstrapping rd shuffle a sampleSize iterations k
       = Returns (c, k')) /\
  (iterations <= 0 ->
     StockAnalyzer.performBootstrapping rd shuffle a sampleSize iterations k
     = Throws length_error).
Proof.
  intros Hi Hg. split; [ | apply performBootstrapping_no_iterations; exact Hi].
  intros H1. unfold is_int in Hi. unfold StockAnalyzer.performBootstrapping.
  unfold bind at 1. rewrite vector_of_vectors by lia.
  unfold bind at 1. rewrite vector_of_vectors by lia.
  unfold bind at 1. rewrite vector_of_vectors by lia.
  unfold bind at 1.
  destruct (Z.to_nat iterations) as [ | n] eqn:En; [lia | ].
  destruct (iterate_total a sampleSize Hg (S n) 0%nat
              (repeat [] (S n)) (repeat [] (S n)) (repeat [] (S n)) k)
    as ([ [B M] T] & k1 & E).
  rewrite E.
  pose proof (iterate_invariant rd shuffle a sampleSize
     (fun r => caar_like (fst (fst r)) /\ caar_like (snd (fst r)) /\ caar_like (snd r))
     (fun R =>
        (length (fst (fst R)) = S n /\ Forall double_vector (fst (fst R))) /\
        (length (snd (fst R)) = S n /\ Forall double_vector (snd (fst R))) /\
        (length (snd R) = S n /\ Forall double_vector (snd R)))) as Hinv.
  cbn [fst snd] in Hinv.
  specialize (Hinv
    ltac:(intros j [ [b m] s] j' Ei; apply (iteration_returns _ _ _ _ _ _ _ _ _ Ei))
    ltac:(intros i b m s B0 M0 T0 (Pb & Pm & Ps) ((Lb & Fb) & (Lm & Fm) & (Ls & Fs));
          rewrite !assign_length;
          repeat split; try assumption; apply assign_Forall;
          try assumption; [apply Pb | apply Pm | apply Ps])
    _ _ _ _ _ _ _ _
    ltac:(rewrite !repeat_length; repeat split;
          apply Forall_forall; intros v Hv; apply repeat_spec in Hv; subst v;
          apply double_vector_nil)
    E).
  destruct Hinv as ((Lb & Fb) & (Lm & Fm) & (Ls & Fs)).
  assert (R : forall V, length V = S n -> Forall double_vector V ->
              exists v, checked_resize sizeof_double (StockAnalyzer.min_size V) 0%float []
                        = Returns v).
  { intros V L F. destruct (min_size_bound V) as [_ Hmax]; [ | exact F | ].
    - intros ->. discriminate L.
    - unfold checked_resize.
      destruct (Z.ltb_spec (max_size sizeof_double) (StockAnalyzer.min_size V)); [lia | ].
      eexists. reflexivity. }
  destruct (R B Lb Fb) as [vb Rb], (R M Lm Fm) as [vm Rm], (R T Ls Fs) as [vs Rs].
  cbv zeta. unfold bind, lift, ret. rewrite Rb, Rm, Rs.
  eexists. eexists. reflexivity.
Qed.

End TotalityFacts.

(** * The further properties at concrete inputs *)

(** A price of 0 between 1 and 2: the return after it is not finite. *)
Lemma calculateReturns_zero_price_witness :
  exists r,
    nth_error (Stock.returns (Stock.calculateReturns Samples.halted)) 1 = Some r /\
    not_finite r.
Proof.
  apply (calculateReturns_zero_price Samples.halted 1 0%float 2%float); reflexivity.
Defined.

(** A stock with the prices 1, 0, 2 against a market with the same prices:
    the returns are -1 and an infinity. *)
Lemma market_against_itself_witness :
  let s := Stock.mk "SPY" 1%float 1%float "" [1; 0; 2]%float [] [] in
  let s' :=
    Stock.calculateAbnormalReturns (Stock.calculateReturns s)
      (MarketData.calculateMarketReturns [1; 0; 2]%float) in
  length (Stock.abnormalReturns s') = (length [1; 0; 2]%float - 1)%nat /\
  (forall i v,
      nth_error (Stock.abnormalReturns s') i = Some v ->
      exists r,
        nth_error (Stock.returns s') i = Some r /\
        (v = 0%float \/ v = nan) /\
        (finite r -> v = 0%float) /\
        (not_finite r -> v = nan)).
Proof.
  apply (market_against_itself
           (Stock.mk "SPY" 1%float 1%float "" [1; 0; 2]%float [] [])
           [1; 0; 2]%float).
  reflexivity.
Defined.

(** An estimate of 1 and an actual EPS of 1. *)
Lemma actual_equal_estimate_meets_witness :
  Stock.getGroup (Examples.stock_with []) = "Meet"%string.
Proof. apply actual_equal_estimate_meets. reflexivity. Defined.

(** The first aggregation of the group of the second scenario. *)
Lemma calculateAAR_first_call_witness :
  exists g',
    Group.calculateAAR Examples.scenario_heap Examples.two_members = Returns g' /\
    Group.stocks g' = Group.stocks Examples.two_members /\
    length (Group.aar g')
      = length (Stock.abnormalReturns (Examples.scenario_heap 0%N)) /\
    forall d, (d < length (Stock.abnormalReturns (Examples.scenario_heap 0%N)))%nat ->
      nth_error (Group.aar g') d =
      Some (member_sum Examples.scenario_heap (Group.stocks Examples.two_members) d
            / size_to_double (Z.of_nat (length (Group.stocks Examples.two_members))))%float.
Proof.
  apply (calculateAAR_first_call Examples.scenario_heap Examples.two_members 0%N [1%N]).
  - reflexivity.
  - reflexivity.
  - vm_compute. discriminate.
Defined.

(** A group whose only member has the abnormal returns 1 and 2. *)
Lemma single_member_aar_witness :
  Group.calculateAAR Examples.small_heap Samples.one_member
  = Returns (Group.set_aar Samples.one_member
               (Stock.abnormalReturns (Examples.small_heap 0%N))).
Proof.
  apply (single_member_aar Examples.small_heap Samples.one_member 0%N).
  - reflexivity.
  - reflexivity.
  - vm_compute. discriminate.
  - repeat constructor; intros H; apply (f_equal Prim2SF) in H; discriminate H.
Defined.

(** [calculateGroupMetrics] on the analyzer of the examples. *)
Lemma calculateGroupMetrics_invariant_witness :
  StockAnalyzer.stocksMap Samples.analyzed = StockAnalyzer.stocksMap Examples.analyzer /\
  aggregated_from (StockAnalyzer.beatGroup Examples.analyzer)
    (StockAnalyzer.beatGroup Samples.analyzed) /\
  aggregated_from (StockAnalyzer.meetGroup Examples.analyzer)
    (StockAnalyzer.meetGroup Samples.analyzed) /\
  aggregated_from (StockAnalyzer.missGroup Examples.analyzer)
    (StockAnalyzer.missGroup Samples.analyzed).
Proof.
  apply (calculateGroupMetrics_invariant Examples.analyzer Samples.analyzed).
  vm_compute. reflexivity.
Defined.

(** A sample of one from a group of two members, under the reversing
    shuffle. *)
Lemma sample_below_size_witness :
  exists sample,
    Group.sampleStocks Examples.counting_device Examples.reversing_shuffle
      Examples.two_members 1 0%nat = Returns (sample, 1%nat) /\
    sample = firstn (Z.to_nat 1)
               (Examples.reversing_shuffle (Examples.counting_device 0)
                  (Group.stocks Examples.two_members)) /\
    Z.of_nat (length sample) = 1 /\
    (forall p, (count_occ N.eq_dec sample p
                <= count_occ N.eq_dec (Group.stocks Examples.two_members) p)%nat) /\
    incl sample (Group.stocks Examples.two_members) /\
    (NoDup (Group.stocks Examples.two_members) -> NoDup sample).
Proof.
  apply (sample_below_size Examples.counting_device Examples.reversing_shuffle).
  - intros seed v. apply Permutation_sym, Permutation_rev.
  - unfold is_int, INT_MIN, INT_MAX. lia.
  - simpl. lia.
Defined.

(** Three iterations with a sample size of 2 on groups of at most two
    members. *)
Lemma bootstrap_whole_groups_witness :
  StockAnalyzer.performBootstrapping Examples.counting_device
    Examples.reversing_shuffle Examples.analyzer 2 3 0%nat
  = StockAnalyzer.performBootstrapping (fun _ => 7%N) (fun _ v => v)
      Examples.analyzer 2 3 0%nat /\
  (forall c k',
      StockAnalyzer.performBootstrapping Examples.counting_device
        Examples.reversing_shuffle Examples.analyzer 2 3 0%nat
      = Returns (c, k') ->
      k' = 0%nat /\
      (is_int 3 ->
       exists beatCAAR meetCAAR missCAAR,
         whole_group_caar (StockAnalyzer.stocksMap Examples.analyzer) "TempBeat"
           (StockAnalyzer.beatGroup Examples.analyzer) = Returns beatCAAR /\
         whole_group_caar (StockAnalyzer.stocksMap Examples.analyzer) "TempMeet"
           (StockAnalyzer.meetGroup Examples.analyzer) = Returns meetCAAR /\
         whole_group_caar (StockAnalyzer.stocksMap Examples.analyzer) "TempMiss"
           (StockAnalyzer.missGroup Examples.analyzer) = Returns missCAAR /\
         c = (copies_average 3 beatCAAR, copies_average 3 meetCAAR,
              copies_average 3 missCAAR))).
Proof.
  apply bootstrap_whole_groups.
  - unfold is_int, INT_MIN, INT_MAX. lia.
  - repeat split; simpl; lia.
Defined.

(** One iteration with a sample size of 1: the Meet and Miss groups have no
    member. *)
Lemma bootstrap_empty_group_witness :
  (Group.stocks (StockAnalyzer.beatGroup Examples.analyzer) = [] -> [3; 5]%float = []) /\
  (Group.stocks (StockAnalyzer.meetGroup Examples.analyzer) = [] -> @nil float = []) /\
  (Group.stocks (StockAnalyzer.missGroup Examples.analyzer) = [] -> @nil float = []).
Proof.
  apply (bootstrap_empty_group Examples.counting_device Examples.reversing_shuffle
           Examples.analyzer 1 1 0%nat 1%nat).
  - unfold is_int, INT_MIN, INT_MAX. lia.
  - vm_compute. reflexivity.
Defined.


(** The retrieval of the two stocks of the samples. *)
Lemma retrieval_fills_groups_witness :
  exists s',
    Retrieval.retrieveHistoricalData Samples.fetchData Samples.stod Samples.session
    = Returns s' /\
    Group.stocks (StockAnalyzer.beatGroup (Retrieval.analyzer s')) = [0%N] /\
    Group.stocks (StockAnalyzer.meetGroup (Retrieval.analyzer s')) = [1%N] /\
    Group.stocks (StockAnalyzer.missGroup (Retrieval.analyzer s')) = [].
Proof.
  destruct (Retrieval.retrieveHistoricalData Samples.fetchData Samples.stod Samples.session)
    as [s' | e] eqn:E; [ | vm_compute in E; discriminate E].
  exists s'. split; [reflexivity | ].
  destruct (retrieval_fills_groups Samples.fetchData Samples.stod Samples.session s' E)
    as (B & M & S' & _).
  rewrite B, M, S'. repeat split.
Defined.

Lemma retrieval_fills_series_witness :
  exists s',
    Retrieval.retrieveHistoricalData Samples.fetchData Samples.stod Samples.session
    = Returns s' /\
    Retrieval.marketPrices s' = [100; 101; 99]%float /\
    length (Stock.abnormalReturns (StockAnalyzer.stocksMap (Retrieval.analyzer s') 0%N))
    = Nat.min (length (Stock.prices (StockAnalyzer.stocksMap (Retrieval.analyzer s') 0%N)) - 1)
        (length (Retrieval.marketPrices s') - 1).
Proof.
  destruct (Retrieval.retrieveHistoricalData Samples.fetchData Samples.stod Samples.session)
    as [s' | e] eqn:E; [ | vm_compute in E; discriminate E].
  exists s'. split; [reflexivity | ].
  destruct (retrieval_fills_series Samples.fetchData Samples.stod Samples.session s' E)
    as (P & _ & T).
  split; [rewrite P; reflexivity | ].
  apply (T 0%N). left. reflexivity.
Defined.

Lemma retrieval_twice_witness :
  exists s1 s2,
    Retrieval.retrieveHistoricalData Samples.fetchData Samples.stod Samples.session
    = Returns s1 /\
    Retrieval.retrieveHistoricalData Samples.fetchData Samples.stod s1 = Returns s2 /\
    Group.stocks (StockAnalyzer.beatGroup (Retrieval.analyzer s2)) = [0%N; 0%N] /\
    Group.stocks (StockAnalyzer.meetGroup (Retrieval.analyzer s2)) = [1%N; 1%N] /\
    Group.stocks (StockAnalyzer.missGroup (Retrieval.analyzer s2)) = [].
Proof.
  destruct (Retrieval.retrieveHistoricalData Samples.fetchData Samples.stod Samples.session)
    as [s1 | e] eqn:E1; [ | vm_compute in E1; discriminate E1].
  destruct (Retrieval.retrieveHistoricalData Samples.fetchData Samples.stod s1)
    as [s2 | e] eqn:E2.
  - exists s1, s2. split; [reflexivity | split; [exact E2 | ] ].
    destruct (retrieval_twice Samples.fetchData Samples.stod Samples.session s1 s2 E1 E2)
      as (B & M & S').
    rewrite B, M, S'. repeat split.
  - exfalso. vm_compute in E1. injection E1 as <-. vm_compute in E2. discriminate E2.
Defined.

Lemma retrieval_keeps_groups_sorted_witness :
  exists s',
    Retrieval.retrieveHistoricalData Samples.fetchData Samples.stod Samples.session
    = Returns s' /\
    well_sorted (Retrieval.analyzer s').
Proof.
  destruct (Retrieval.retrieveHistoricalData Samples.fetchData Samples.stod Samples.session)
    as [s' | e] eqn:E; [ | vm_compute in E; discriminate E].
  exists s'. split; [reflexivity | ].
  apply (retrieval_keeps_groups_sorted Samples.fetchData Samples.stod Samples.session s' E).
  repeat split; constructor.
Defined.

(** The analyzer of the examples, under the reversing shuffle. *)
Lemma calculateGroupMetrics_returns_witness :
  exists a', StockAnalyzer.calculateGroupMetrics Examples.analyzer = Returns a'.
Proof.
  apply calculateGroupMetrics_returns.
  repeat split; repeat constructor; vm_compute; discriminate.
Defined.

Lemma performBootstrapping_returns_witness :
  (exists c k',
     StockAnalyzer.performBootstrapping Examples.counting_device
       Examples.reversing_shuffle Examples.analyzer 1 3 0%nat = Returns (c, k')) /\
  StockAnalyzer.performBootstrapping Examples.counting_device
    Examples.reversing_shuffle Examples.analyzer 1 0 0%nat = Throws length_error.
Proof.
  assert (P : forall seed v, Permutation (Examples.reversing_shuffle seed v) v)
    by (intros seed v; apply Permutation_sym, Permutation_rev).
  assert (G : groups_int_sized Examples.analyzer)
    by (repeat split; repeat constructor; vm_compute; discriminate).
  split.
  - apply (performBootstrapping_returns Examples.counting_device
             Examples.reversing_shuffle P Examples.analyzer 1 3 0%nat);
      [unfold is_int, INT_MIN, INT_MAX; lia | exact G | lia].
  - apply (performBootstrapping_returns Examples.counting_device
             Examples.reversing_shuffle P Examples.analyzer 1 0 0%nat);
      [unfold is_int, INT_MIN, INT_MAX; lia | exact G | lia].
Defined.

(** Data of one line only. *)
Lemma parsePrices_header_only_witness :
  Csv.parsePrices Samples.stod "99,99,99,99,99,99" = [].
Proof.
  apply parsePrices_header_only. cbn. repeat split; discriminate.
Defined.
